(** * discord-ytdl-core: the stream composition pipeline of [src/index.ts]

    A shallow embedding of the two entry points [StreamDownloader] (the
    module's default export, called [source] in the specification) and
    [arbitraryStream], with the JavaScript values they inspect, the argument
    lists they build for the transcoder, and the stages, pipes and listeners
    they create. *)

From Stdlib Require Import SpecFloat.
From stdpp Require Import base option list strings pretty.

Local Open Scope string_scope.
Local Open Scope list_scope.

(** ** JavaScript values *)

(** A [number] is an IEEE-754 double; [S754_nan] is [NaN]. *)
Abbreviation number := spec_float.

(** A stage of a pipeline is a heap object; a handle is its address. *)
Definition handle := nat.

(** The values the entry points can be called with, one form for each
    result of [typeof] and for each kind of object the code tells apart.
    Arrays are the [string[]] of the interfaces; [VObject] is any other
    object without a [pipe] method, and [VFunction] any function without
    one; [VStream] is a [Readable] or [Duplex]. *)
Inductive value : Type :=
| VUndefined
| VNull
| VBool (b : bool)
| VNumber (n : number)
| VString (s : string)
| VArray (xs : list string)
| VObject
| VBuffer (bytes : list Byte.byte)
| VStream (h : handle)
| VBigInt (z : Z)
| VSymbol
| VFunction.

(** [typeof v] *)
Definition typeof (v : value) : string :=
  match v with
  | VUndefined => "undefined"
  | VBool _ => "boolean"
  | VNumber _ => "number"
  | VString _ => "string"
  | VNull | VArray _ | VObject | VBuffer _ | VStream _ => "object"
  | VBigInt _ => "bigint"
  | VSymbol => "symbol"
  | VFunction => "function"
  end.

(** ToBoolean: what [!v] and [a && b] test. *)
Definition truthy (v : value) : bool :=
  match v with
  | VUndefined | VNull => false
  | VBool b => b
  | VNumber (S754_zero _) | VNumber S754_nan => false
  | VNumber _ => true
  | VString s => negb (String.eqb s "")
  | VArray _ | VObject | VBuffer _ | VStream _ => true
  | VBigInt z => negb (Z.eqb z 0)
  | VSymbol | VFunction => true
  end.

(** [Array.isArray(v)] *)
Definition Array_isArray (v : value) : bool :=
  match v with VArray _ => true | _ => false end.

(** [v instanceof Buffer] *)
Definition instanceof_Buffer (v : value) : bool :=
  match v with VBuffer _ => true | _ => false end.

(** [Number.isNaN] *)
Definition Number_isNaN (n : number) : bool :=
  match n with S754_nan => true | _ => false end.

(** The global [isNaN] applied to a field declared [seek?: number]: an
    absent field reads [undefined], which converts to [NaN]. *)
Definition isNaN (seek : option number) : bool :=
  match seek with
  | None => true
  | Some n => Number_isNaN n
  end.

(** A stand-in for [Number.prototype.toString] in the examples at the
    end.  It agrees with it on the zeros, the infinities, [NaN] and the
    doubles [m * 2^e] with [0 <= e] and [m * 2^e < 2^53]; on every other
    double (a fraction, an integer written with a negative exponent, an
    integer from [2^53] on) it is not that function. *)
Definition toString_integral (n : number) : string :=
  match n with
  | S754_zero _ => "0"
  | S754_infinity s => if s then "-Infinity" else "Infinity"
  | S754_nan => "NaN"
  | S754_finite s m (Z0 as e) | S754_finite s m (Zpos _ as e) =>
      (if s then "-" else "") +:+ pretty (Z.pos m * 2 ^ e)%Z
  | S754_finite _ _ (Zneg _) => "NaN"
  end.

(** ** Options *)

(** [StreamOptions], and the fields [YTDLStreamOptions] adds to ytdl-core's
    [downloadOptions].  [seek] has its declared type; the three fields the
    code tests at run time ([typeof], [Array.isArray], [!]) hold any value,
    [VUndefined] when absent. *)
Record StreamOptions : Type := mkOptions {
  seek : option number;
  encoderArgs : value;
  fmt : value;
  opusEncoded : value;
}.

(** [{}] *)
Definition empty_options : StreamOptions :=
  {| seek := None; encoderArgs := VUndefined; fmt := VUndefined;
     opusEncoded := VUndefined |}.

(** [options ??= {}] *)
Definition nullish_default (options : option StreamOptions) : StreamOptions :=
  default empty_options options.

Definition set_seek (s : option number) (o : StreamOptions) : StreamOptions :=
  {| seek := s; encoderArgs := encoderArgs o; fmt := fmt o;
     opusEncoded := opusEncoded o |}.

Definition set_encoderArgs (v : value) (o : StreamOptions) : StreamOptions :=
  {| seek := seek o; encoderArgs := v; fmt := fmt o;
     opusEncoded := opusEncoded o |}.

(** ytdl events *)
Definition evn : list string :=
  ["info"; "progress"; "abort"; "request"; "response"; "error"; "redirect";
   "retry"; "reconnect"].

(** ** Stages, listeners and the heap *)

(** What a stage was constructed by. *)
Inductive stage_kind : Type :=
| Ytdl (url : value) (options : StreamOptions)
| FFmpeg (args : list string)
| OpusEncoder (rate channels frameSize : Z)
| ReadableFrom (buffer : list Byte.byte)
| CallerStream.

(** The three shapes of listener the program registers:
    [(...args) => target.emit(event, ...args)],
    [(e) => target.emit('error', e)] and
    [() => { t1.destroy(); ... }]. *)
Inductive listener : Type :=
| Relay (target : handle) (event : string)
| RelayError (target : handle)
| DestroyAll (targets : list handle).

(** A stage: its listeners in registration order, the destinations it is
    piped into, the events emitted on it so far (oldest first) and how many
    times its [destroy] was invoked. *)
Record stage : Type := mkStage {
  kind : stage_kind;
  listeners : list (string * listener);
  pipes : list handle;
  emitted : list (string * list value);
  destroy_calls : nat;
}.

(** The heap: the stages allocated so far, by address. *)
Abbreviation world := (list stage).

Definition fresh (k : stage_kind) : stage :=
  {| kind := k; listeners := []; pipes := []; emitted := [];
     destroy_calls := 0 |}.

Definition add_listener (event : string) (l : listener) (s : stage) : stage :=
  {| kind := kind s; listeners := listeners s ++ [(event, l)];
     pipes := pipes s; emitted := emitted s;
     destroy_calls := destroy_calls s |}.

Definition add_pipe (dst : handle) (s : stage) : stage :=
  {| kind := kind s; listeners := listeners s; pipes := pipes s ++ [dst];
     emitted := emitted s; destroy_calls := destroy_calls s |}.

Definition record_event (event : string) (args : list value) (s : stage)
  : stage :=
  {| kind := kind s; listeners := listeners s; pipes := pipes s;
     emitted := emitted s ++ [(event, args)];
     destroy_calls := destroy_calls s |}.

Definition count_destroy (s : stage) : stage :=
  {| kind := kind s; listeners := listeners s; pipes := pipes s;
     emitted := emitted s; destroy_calls := S (destroy_calls s) |}.

(** [h.destroy()].  The heap keeps count of the invocations; what the stream
    library does to a destroyed stream is outside this repository. *)
Definition destroy (h : handle) (w : world) : world := alter count_destroy h w.

(** The listeners of a stage for one event, in registration order. *)
Definition listeners_for (event : string) (s : stage) : list listener :=
  List.map snd
    (List.filter (fun el => String.eqb event (fst el)) (listeners s)).

(** One listener called with [args]; [emit] is the emitter it calls back. *)
Definition run_listener
    (emit : handle -> string -> list value -> world -> option world)
    (args : list value) (l : listener) (w : world) : option world :=
  match l with
  | Relay target event => emit target event args w
  | RelayError target => emit target "error" [List.hd VUndefined args] w
  | DestroyAll targets => Some (foldl (fun w' t => destroy t w') w targets)
  end.

(** [h.emit(event, ...args)]: the event is observed on [h], then the
    listeners registered on [h] for it run one after the other, each to
    completion.  The heap holds the listeners this program registers; those
    the stream library keeps for itself are outside this repository.  An
    [error] on a stage that has no listener for it, which Node turns into
    an exception, is observed like any other event; X9, which counts what
    runs after such a relay, is stated on a heap where the caller listens
    for errors.
    [fuel] bounds the nesting of emitters; [None] is a handle that names no
    stage, or fuel that ran out. *)
Fixpoint emit (fuel : nat) (h : handle) (event : string) (args : list value)
    (w : world) : option world :=
  match fuel with
  | O => None
  | S fuel' =>
      match w !! h with
      | None => None
      | Some s =>
          foldl (fun acc l => acc ≫= run_listener (emit fuel') args l)
                (Some (alter (record_event event args) h w))
                (listeners_for event s)
      end
  end.

(** A sequence of events raised on one stage. *)
Fixpoint emit_all (fuel : nat) (h : handle) (events : list (string * list value))
    (w : world) : option world :=
  match events with
  | [] => Some w
  | (event, args) :: rest => emit fuel h event args w ≫= emit_all fuel h rest
  end.

(** What an observer of [h] has seen, and how often [h] was destroyed. *)
Definition emitted_on (w : world) (h : handle) : list (string * list value) :=
  from_option emitted [] (w !! h).

Definition destroy_calls_on (w : world) (h : handle) : nat :=
  from_option destroy_calls 0 (w !! h).

Definition kind_of (w : world) (h : handle) : option stage_kind :=
  kind <$> w !! h.

Definition pipes_of (w : world) (h : handle) : list handle :=
  from_option pipes [] (w !! h).

(** ** Calls: state and exceptions *)

Inductive exn : Type :=
| Error (message : string)
| SyntaxError (message : string)
| TypeError (message : string).

Inductive outcome (A : Type) : Type :=
| Return (a : A)
| Throw (e : exn).
Arguments Return {A} a.
Arguments Throw {A} e.

(** A call runs on a heap and leaves a heap, whether it returns or throws. *)
Definition M (A : Type) : Type := world -> outcome A * world.

Definition ret {A} (a : A) : M A := fun w => (Return a, w).

Definition throw {A} (e : exn) : M A := fun w => (Throw e, w).

Definition bind {A B} (m : M A) (k : A -> M B) : M B :=
  fun w => match m w with
           | (Return a, w') => k a w'
           | (Throw e, w') => (Throw e, w')
           end.

Declare Scope call_scope.
Delimit Scope call_scope with call.
Notation "x <- c1 ;; c2" := (bind c1 (fun x => c2))
  (at level 100, c1 at next level, right associativity) : call_scope.
Notation "c1 ;; c2" := (bind c1 (fun _ => c2))
  (at level 100, right associativity) : call_scope.

(** [new K(...)]: the object is allocated at the next free address; the
    constructors of the collaborating libraries are taken to succeed. *)
Definition new_stage (k : stage_kind) : M handle :=
  fun w => (Return (length w), w ++ [fresh k]).

(** [h.on(event, l)] *)
Definition on (h : handle) (event : string) (l : listener) : M unit :=
  fun w => (Return tt, alter (add_listener event l) h w).

(** [src.pipe(dst)], which returns [dst]. *)
Definition pipe (src dst : handle) : M handle :=
  fun w => (Return dst, alter (add_pipe dst) src w).

(** [v.pipe(dst)] for a value that may not be a stream. *)
Definition pipe_value (v : value) (dst : handle) : M handle :=
  match v with
  | VStream src => pipe src dst
  | _ => throw (TypeError "stream.pipe is not a function")
  end.

(** [v.on(event, l)] for a value that was just piped. *)
Definition on_value (v : value) (event : string) (l : listener) : M unit :=
  match v with
  | VStream h => on h event l
  | _ => throw (TypeError "stream.on is not a function")
  end.

(** [for (const x of xs) body(x)] *)
Fixpoint for_of {A} (xs : list A) (body : A -> M unit) : M unit :=
  match xs with
  | [] => ret tt
  | x :: rest => (body x ;; for_of rest body)%call
  end.

(** [ytdl(url, options)] opens the remote source. *)
Definition ytdl (url : value) (options : StreamOptions) : M handle :=
  new_stage (Ytdl url options).

(** [Readable.from(buffer)] *)
Definition Readable_from (buffer : list Byte.byte) : M value :=
  (h <- new_stage (ReadableFrom buffer) ;; ret (VStream h))%call.

(** The listeners the loop over [evn] registers, towards [target]. *)
Definition relay_listeners (target : handle) : list (string * listener) :=
  List.map (fun event => (event, Relay target event)) evn.

(** Whether an event name is one of [evn]. *)
Definition is_lifecycle (event : string) : bool :=
  existsb (String.eqb event) evn.

(** The heap once [arbitraryStream] has piped the stream [h] it was given
    into [t] and registered its error listener on it. *)
Definition wired_input (h t : handle) (w0 : world) : world :=
  alter (add_listener "error" (DestroyAll [t])) h (alter (add_pipe t) h w0).

(** The stages a call has to release: transcoders and encoders. *)
Definition is_transcode_or_encode (k : stage_kind) : bool :=
  match k with
  | FFmpeg _ | OpusEncoder _ _ _ => true
  | _ => false
  end.

(** [close] on [out] tears down what was built above address [n]: a
    transcoder was allocated there, and once the listeners of [close] have
    run, every transcoder and encoder allocated there has had its [destroy]
    invoked, which had not happened before. *)
Definition close_tears_down (n : nat) (out : handle) (w1 : world) : Prop :=
  (exists t args, n <= t /\ kind_of w1 t = Some (FFmpeg args))
  /\ forall (args : list value) (fuel : nat),
       1 <= fuel ->
       exists w2,
         emit fuel out "close" args w1 = Some w2
         /\ forall h k,
              n <= h -> kind_of w1 h = Some k ->
              is_transcode_or_encode k = true ->
              destroy_calls_on w1 h = 0 /\ destroy_calls_on w2 h = 1.

(** The caller can only pass a stream that exists. *)
Definition live (w : world) (v : value) : Prop :=
  match v with
  | VStream h => h < length w
  | _ => True
  end.

Section Pipeline.

(** [Number.prototype.toString] belongs to the JavaScript runtime. *)
Variable Number_toString : number -> string.

(** ** The argument lists *)

(** [typeof options.fmt === 'string' ? options.fmt : 's16le'] *)
Definition fmt_or_default (options : StreamOptions) : string :=
  match fmt options with
  | VString f => f
  | _ => "s16le"
  end.

(** The ten arguments both entry points always pass. *)
Definition common_args (options : StreamOptions) : list string :=
  ["-analyzeduration"; "0"; "-loglevel"; "0"; "-f"; fmt_or_default options;
   "-ar"; "48000"; "-ac"; "2"].

(** [if (!isNaN(options.seek)) FFmpegArgs.unshift('-ss', options.seek.toString())] *)
Definition unshift_seek (options : StreamOptions) (args : list string)
  : list string :=
  if negb (isNaN (seek options)) then
    match seek options with
    | Some n => "-ss" :: Number_toString n :: args
    | None => args
    end
  else args.

(** [if (Array.isArray(options.encoderArgs)) FFmpegArgs = FFmpegArgs.concat(options.encoderArgs)] *)
Definition concat_encoderArgs (options : StreamOptions) (args : list string)
  : list string :=
  match encoderArgs options with
  | VArray xs => args ++ xs
  | _ => args
  end.

(** [FFmpegArgs] as [StreamDownloader] builds it (lines 58-77). *)
Definition StreamDownloader_FFmpegArgs (options : StreamOptions) : list string :=
  concat_encoderArgs options (unshift_seek options (common_args options)).

(** The initial list of [arbitraryStream] (lines 137-175): the reconnect
    flags and the input url for a string, the common arguments otherwise,
    followed by ["-i"; "-"] for a [Buffer]. *)
Definition arbitraryStream_initial_args (stream : value) (options : StreamOptions)
  : list string :=
  match stream with
  | VString url =>
      ["-reconnect"; "1"; "-reconnect_streamed"; "1"; "-reconnect_delay_max";
       "5"; "-i"; url] ++ common_args options
  | _ =>
      common_args options
        ++ (if instanceof_Buffer stream then ["-i"; "-"] else [])
  end.

(** [FFmpegArgs] as [arbitraryStream] builds it (lines 137-183). *)
Definition arbitraryStream_FFmpegArgs (stream : value) (options : StreamOptions)
  : list string :=
  concat_encoderArgs options
    (unshift_seek options (arbitraryStream_initial_args stream options)).

(** ** The entry points *)

Local Open Scope call_scope.

(** [StreamDownloader], lines 46-113.  After [options ??= {}] the test
    [options && !options.opusEncoded] is that of [!options.opusEncoded]. *)
Definition StreamDownloader (url : value) (options : option StreamOptions)
  : M handle :=
  if negb (truthy url) then throw (Error "No input url provided") else
  if negb (String.eqb (typeof url) "string") then
    throw (SyntaxError
             ("input URL must be a string. Received " +:+ typeof url +:+ "!"))
  else
  let options := nullish_default options in
  let FFmpegArgs := StreamDownloader_FFmpegArgs options in
  transcoder <- new_stage (FFmpeg FFmpegArgs) ;;
  inputStream <- ytdl url options ;;
  output <- pipe inputStream transcoder ;;
  if negb (truthy (opusEncoded options)) then
    for_of evn (fun event => on inputStream event (Relay output event)) ;;
    on inputStream "error" (DestroyAll [transcoder]) ;;
    on output "close" (DestroyAll [transcoder]) ;;
    ret output
  else
  opus <- new_stage (OpusEncoder 48000 2 960) ;;
  outputStream <- pipe output opus ;;
  on output "error" (RelayError outputStream) ;;
  for_of evn (fun event => on inputStream event (Relay outputStream event)) ;;
  on outputStream "close" (DestroyAll [transcoder; opus]) ;;
  ret outputStream.

(** [arbitraryStream], lines 127-211.  A truthy input that is neither a
    string nor a stream nor a [Buffer] has no [pipe], and the call throws
    once the transcoder exists. *)
Definition arbitraryStream (stream : value) (options : option StreamOptions)
  : M handle :=
  if negb (truthy stream) then throw (Error "No stream source provided") else
  let options := nullish_default options in
  let FFmpegArgs := arbitraryStream_FFmpegArgs stream options in
  transcoder <- new_stage (FFmpeg FFmpegArgs) ;;
  transcoder <-
    (if negb (String.eqb (typeof stream) "string") then
       stream <- (match stream with
                  | VBuffer bytes => Readable_from bytes
                  | _ => ret stream
                  end) ;;
       transcoder <- pipe_value stream transcoder ;;
       on_value stream "error" (DestroyAll [transcoder]) ;;
       ret transcoder
     else ret transcoder) ;;
  if negb (truthy (opusEncoded options)) then
    on transcoder "close" (DestroyAll [transcoder]) ;;
    ret transcoder
  else
  opus <- new_stage (OpusEncoder 48000 2 960) ;;
  outputStream <- pipe transcoder opus ;;
  on outputStream "close" (DestroyAll [transcoder; opus]) ;;
  ret outputStream.

(** ** The chains [StreamDownloader] builds *)

(** Without Opus: the transcoder at [t], which is returned, and the remote
    source at [t + 1]; what varies over time is what was seen on each and
    how often the transcoder was destroyed. *)
Definition plain_chain (w : world) (args : list string) (source : stage_kind)
    (seen_t : list (string * list value)) (destroyed_t : nat)
    (seen_s : list (string * list value)) : world :=
  let t := length w in
  w ++ [mkStage (FFmpeg args) [("close", DestroyAll [t])] [] seen_t
          destroyed_t;
        mkStage source (relay_listeners t ++ [("error", DestroyAll [t])]) [t]
          seen_s 0].

(** With Opus: the transcoder at [t], the remote source at [t + 1] and the
    encoder, which is returned, at [t + 2]. *)
Definition opus_chain (w : world) (args : list string) (source : stage_kind)
    (seen_t seen_s seen_o : list (string * list value)) : world :=
  let t := length w in
  w ++ [mkStage (FFmpeg args) [("error", RelayError (t + 2))] [t + 2] seen_t 0;
        mkStage source (relay_listeners (t + 2)) [t] seen_s 0;
        mkStage (OpusEncoder 48000 2 960) [("close", DestroyAll [t; t + 2])]
          [] seen_o 0].

(** The events of a sequence that are in [evn], and its errors. *)
Definition lifecycle_only (events : list (string * list value))
  : list (string * list value) :=
  List.filter (fun ea => is_lifecycle (fst ea)) events.

Definition count_errors (events : list (string * list value)) : nat :=
  length (List.filter (fun ea => String.eqb (fst ea) "error") events).

(** ** Strings that reach the argument list from the caller *)

Definition reconnect_flags : list string :=
  ["-reconnect"; "-reconnect_streamed"; "-reconnect_delay_max"].

(** The elements [concat_encoderArgs] appends. *)
Definition encoderArgs_list (options : StreamOptions) : list string :=
  match encoderArgs options with
  | VArray xs => xs
  | _ => []
  end.

(** The rendering [unshift_seek] inserts, if any. *)
Definition seek_rendering (options : StreamOptions) : list string :=
  if negb (isNaN (seek options)) then
    match seek options with
    | Some n => [Number_toString n]
    | None => []
    end
  else [].

(** ** Reading the heap and following events *)

Definition set_fmt (v : value) (o : StreamOptions) : StreamOptions :=
  {| seek := seek o; encoderArgs := encoderArgs o; fmt := v;
     opusEncoded := opusEncoded o |}.

(** What construction fixes of a stage: its kind, listeners and pipes. *)
Definition wiring (s : stage)
  : stage_kind * list (string * listener) * list handle :=
  (kind s, listeners s, pipes s).

(** The stages a listener emits on, and the ones it destroys. *)
Definition emits_on (l : listener) : list handle :=
  match l with
  | Relay target _ | RelayError target => [target]
  | DestroyAll _ => []
  end.

Definition destroys (l : listener) : list handle :=
  match l with
  | DestroyAll targets => targets
  | _ => []
  end.

(** An event on [h] nests emitters at most [n] deep. *)
Fixpoint nesting_le (n : nat) (w : world) (h : handle) : Prop :=
  match n with
  | O => False
  | S n' =>
      exists s, w !! h = Some s
                /\ Forall (fun el => Forall (nesting_le n' w) (emits_on (snd el)))
                     (listeners s)
  end.

(** The listeners of the stages in [E] emit only on stages in [E] and
    destroy only stages in [D]. *)
Definition confined (E D : handle -> Prop) (w : world) : Prop :=
  forall (h : nat) (s : stage), E h -> w !! h = Some s ->
    Forall (fun el => Forall E (emits_on (snd el))
                      /\ Forall D (destroys (snd el)))
      (listeners s).

(** Events raised on several stages, one after the other. *)
Fixpoint emit_trace (fuel : nat) (trace : list (handle * string * list value))
    (w : world) : option world :=
  match trace with
  | [] => Some w
  | (h, event, args) :: rest =>
      emit fuel h event args w ≫= emit_trace fuel rest
  end.

(** The stage an element of a trace is raised on. *)
Definition raised_on (x : handle * string * list value) : handle := fst (fst x).

(** From [w] to [w'] no stage outside [E] and [D] changed, no stage outside
    [E] saw an event, no stage outside [D] was destroyed. *)
Definition only_touches (E D : handle -> Prop) (w w' : world) : Prop :=
  (forall i : nat, ~ E i -> ~ D i -> w' !! i = w !! i)
  /\ (forall i : nat, ~ E i -> emitted_on w' i = emitted_on w i)
  /\ (forall i : nat, ~ D i -> destroy_calls_on w' i = destroy_calls_on w i).

(** What [(e) => outputStream.emit('error', e)] passes on of a sequence of
    events: the errors, each with its first argument alone, [undefined]
    when it had none. *)
Definition relayed_errors (events : list (string * list value))
  : list (string * list value) :=
  List.map (fun ea => ("error", [List.hd VUndefined (snd ea)]))
    (List.filter (fun ea => String.eqb (fst ea) "error") events).

(** The chain [arbitraryStream] builds for a [Buffer]: the transcoder at
    [t], the readable at [t + 1] and, with Opus, the encoder at [t + 2];
    what varies is how often the transcoder was destroyed and what was seen
    on the readable. *)
Definition buffer_chain (w : world) (args : list string)
    (bytes : list Byte.byte) (opus : bool) (destroyed_t : nat)
    (seen_r : list (string * list value)) : world :=
  let t := length w in
  if opus then
    w ++ [mkStage (FFmpeg args) [] [t + 2] [] destroyed_t;
          mkStage (ReadableFrom bytes) [("error", DestroyAll [t])] [t]
            seen_r 0;
          mkStage (OpusEncoder 48000 2 960)
            [("close", DestroyAll [t; t + 2])] [] [] 0]
  else
    w ++ [mkStage (FFmpeg args) [("close", DestroyAll [t])] [] []
            destroyed_t;
          mkStage (ReadableFrom bytes) [("error", DestroyAll [t])] [t]
            seen_r 0].

(** The chain [arbitraryStream] builds on a stream [h] that had no
    listener: the stream where it was, the transcoder at [t] and, with
    Opus, the encoder at [t + 1]. *)
Definition stream_chain (w : world) (h : handle) (s0 : stage)
    (args : list string) (opus : bool) (destroyed_t : nat)
    (seen_h : list (string * list value)) : world :=
  let t := length w in
  <[h := mkStage (kind s0) [("error", DestroyAll [t])] (pipes s0 ++ [t])
           seen_h (destroy_calls s0)]> w
    ++ (if opus then
          [mkStage (FFmpeg args) [] [t + 1] [] destroyed_t;
           mkStage (OpusEncoder 48000 2 960)
             [("close", DestroyAll [t; t + 1])] [] [] 0]
        else
          [mkStage (FFmpeg args) [("close", DestroyAll [t])] [] []
             destroyed_t]).


(** ** The argument lists: seek and encoderArgs *)

Lemma unshift_seek_number (options : StreamOptions) (n : number)
    (args : list string) :
  seek options = Some n -> Number_isNaN n = false ->
  unshift_seek options args = "-ss" :: Number_toString n :: args.
Proof.
  intros Hseek Hnan. unfold unshift_seek. rewrite Hseek. simpl.
  now rewrite Hnan.
Qed.

Lemma unshift_seek_absent (options : StreamOptions) (args : list string) :
  unshift_seek (set_seek None options) args = args.
Proof. reflexivity. Qed.

(** C4. When [seek] is a number other than [NaN], the list either entry
    point builds is ["-ss"], then the rendering of [seek], then the whole
    list the same configuration yields without [seek]: the reconnect flags,
    the input flag and everything else come after the pair. *)
Theorem seek_args_at_head (options : StreamOptions) (n : number) :
  seek options = Some n ->
  Number_isNaN n = false ->
  StreamDownloader_FFmpegArgs options
    = "-ss" :: Number_toString n
        :: StreamDownloader_FFmpegArgs (set_seek None options)
  /\ forall stream : value,
       arbitraryStream_FFmpegArgs stream options
       = "-ss" :: Number_toString n
           :: arbitraryStream_FFmpegArgs stream (set_seek None options).
Proof.
  intros Hseek Hnan.
  unfold StreamDownloader_FFmpegArgs, arbitraryStream_FFmpegArgs.
  split; [|intros stream];
    rewrite (unshift_seek_number _ n) by assumption;
    rewrite unshift_seek_absent;
    unfold concat_encoderArgs; simpl;
    destruct (encoderArgs options); reflexivity.
Qed.

(** C8. An [encoderArgs] that is not an array leaves the list of either
    entry point as it is without [encoderArgs]. *)
Theorem non_list_encoderArgs_ignored (options : StreamOptions) (v : value) :
  Array_isArray v = false ->
  StreamDownloader_FFmpegArgs (set_encoderArgs v options)
    = StreamDownloader_FFmpegArgs (set_encoderArgs VUndefined options)
  /\ forall stream : value,
       arbitraryStream_FFmpegArgs stream (set_encoderArgs v options)
       = arbitraryStream_FFmpegArgs stream (set_encoderArgs VUndefined options).
Proof.
  intros Hv.
  unfold StreamDownloader_FFmpegArgs, arbitraryStream_FFmpegArgs,
    concat_encoderArgs.
  destruct v; try discriminate Hv; split; reflexivity.
Qed.

(** ** The heap after a call *)

Lemma alter_new {A} (f : A -> A) (w l : list A) (k : nat) :
  alter f (length w + k) (w ++ l) = w ++ alter f k l.
Proof. apply alter_app_r. Qed.

Lemma alter_new0 {A} (f : A -> A) (w l : list A) :
  alter f (length w) (w ++ l) = w ++ alter f 0 l.
Proof. rewrite <- (alter_new f w l 0). now rewrite Nat.add_0_r. Qed.

Lemma lookup_new {A} (w l : list A) (k : nat) :
  (w ++ l) !! (length w + k) = l !! k.
Proof. rewrite lookup_app_r by lia. f_equal. lia. Qed.

Lemma lookup_new0 {A} (w l : list A) :
  (w ++ l) !! (length w) = l !! 0.
Proof. rewrite <- (lookup_new w l 0). now rewrite Nat.add_0_r. Qed.

Lemma alter_new_at {A} (f : A -> A) (w l : list A) (n k : nat) :
  length w = n -> alter f (n + k) (w ++ l) = w ++ alter f k l.
Proof. intros <-. apply alter_new. Qed.

Lemma alter_new_at0 {A} (f : A -> A) (w l : list A) (n : nat) :
  length w = n -> alter f n (w ++ l) = w ++ alter f 0 l.
Proof. intros <-. apply alter_new0. Qed.

Ltac heap_norm :=
  repeat first
    [ rewrite length_app
    | rewrite <- app_assoc
    | rewrite alter_new
    | rewrite alter_new0
    | rewrite lookup_new
    | rewrite lookup_new0
    | progress simpl ].

Ltac run_call :=
  unfold bind, new_stage, ytdl, Readable_from, pipe_value, on_value, pipe,
    on, ret, throw, evn; simpl; heap_norm.

Lemma StreamDownloader_plain (s : string) (options : option StreamOptions)
    (w0 : world) :
  s <> "" ->
  truthy (opusEncoded (nullish_default options)) = false ->
  let o := nullish_default options in
  let t := length w0 in
  StreamDownloader (VString s) options w0
  = (Return t,
     w0 ++ [mkStage (FFmpeg (StreamDownloader_FFmpegArgs o))
              [("close", DestroyAll [t])] [] [] 0;
            mkStage (Ytdl (VString s) o)
              (relay_listeners t ++ [("error", DestroyAll [t])]) [t] [] 0]).
Proof.
  intros Hs Hopus o t. unfold StreamDownloader.
  cbn [truthy typeof].
  destruct (String.eqb_spec s ""); [contradiction|]. cbn [negb].
  rewrite Hopus. run_call. reflexivity.
Qed.

Lemma StreamDownloader_opus (s : string) (options : option StreamOptions)
    (w0 : world) :
  s <> "" ->
  truthy (opusEncoded (nullish_default options)) = true ->
  let o := nullish_default options in
  let t := length w0 in
  StreamDownloader (VString s) options w0
  = (Return (t + 2),
     w0 ++ [mkStage (FFmpeg (StreamDownloader_FFmpegArgs o))
              [("error", RelayError (t + 2))] [t + 2] [] 0;
            mkStage (Ytdl (VString s) o) (relay_listeners (t + 2)) [t] [] 0;
            mkStage (OpusEncoder 48000 2 960)
              [("close", DestroyAll [t; t + 2])] [] [] 0]).
Proof.
  intros Hs Hopus o t. unfold StreamDownloader.
  cbn [truthy typeof].
  destruct (String.eqb_spec s ""); [contradiction|]. cbn [negb].
  rewrite Hopus. run_call. reflexivity.
Qed.

Lemma arbitraryStream_string_plain (s : string)
    (options : option StreamOptions) (w0 : world) :
  s <> "" ->
  truthy (opusEncoded (nullish_default options)) = false ->
  let o := nullish_default options in
  let t := length w0 in
  arbitraryStream (VString s) options w0
  = (Return t,
     w0 ++ [mkStage (FFmpeg (arbitraryStream_FFmpegArgs (VString s) o))
              [("close", DestroyAll [t])] [] [] 0]).
Proof.
  intros Hs Hopus o t. unfold arbitraryStream.
  cbn [truthy typeof].
  destruct (String.eqb_spec s ""); [contradiction|]. cbn [negb].
  rewrite Hopus. run_call. reflexivity.
Qed.

Lemma arbitraryStream_string_opus (s : string)
    (options : option StreamOptions) (w0 : world) :
  s <> "" ->
  truthy (opusEncoded (nullish_default options)) = true ->
  let o := nullish_default options in
  let t := length w0 in
  arbitraryStream (VString s) options w0
  = (Return (t + 1),
     w0 ++ [mkStage (FFmpeg (arbitraryStream_FFmpegArgs (VString s) o))
              [] [t + 1] [] 0;
            mkStage (OpusEncoder 48000 2 960)
              [("close", DestroyAll [t; t + 1])] [] [] 0]).
Proof.
  intros Hs Hopus o t. unfold arbitraryStream.
  cbn [truthy typeof].
  destruct (String.eqb_spec s ""); [contradiction|]. cbn [negb].
  rewrite Hopus. run_call. reflexivity.
Qed.

Lemma arbitraryStream_buffer_plain (bytes : list Byte.byte)
    (options : option StreamOptions) (w0 : world) :
  truthy (opusEncoded (nullish_default options)) = false ->
  let o := nullish_default options in
  let t := length w0 in
  arbitraryStream (VBuffer bytes) options w0
  = (Return t,
     w0 ++ [mkStage (FFmpeg (arbitraryStream_FFmpegArgs (VBuffer bytes) o))
              [("close", DestroyAll [t])] [] [] 0;
            mkStage (ReadableFrom bytes)
              [("error", DestroyAll [t])] [t] [] 0]).
Proof.
  intros Hopus o t. unfold arbitraryStream.
  cbn [truthy typeof negb]. rewrite Hopus. run_call. reflexivity.
Qed.

Lemma arbitraryStream_buffer_opus (bytes : list Byte.byte)
    (options : option StreamOptions) (w0 : world) :
  truthy (opusEncoded (nullish_default options)) = true ->
  let o := nullish_default options in
  let t := length w0 in
  arbitraryStream (VBuffer bytes) options w0
  = (Return (t + 2),
     w0 ++ [mkStage (FFmpeg (arbitraryStream_FFmpegArgs (VBuffer bytes) o))
              [] [t + 2] [] 0;
            mkStage (ReadableFrom bytes)
              [("error", DestroyAll [t])] [t] [] 0;
            mkStage (OpusEncoder 48000 2 960)
              [("close", DestroyAll [t; t + 2])] [] [] 0]).
Proof.
  intros Hopus o t. unfold arbitraryStream.
  cbn [truthy typeof negb]. rewrite Hopus. run_call. reflexivity.
Qed.

Lemma length_wired_input (h t : handle) (w0 : world) :
  length (wired_input h t w0) = length w0.
Proof. unfold wired_input. now rewrite !length_alter. Qed.

Lemma arbitraryStream_stream_plain (h : handle)
    (options : option StreamOptions) (w0 : world) :
  h < length w0 ->
  truthy (opusEncoded (nullish_default options)) = false ->
  let o := nullish_default options in
  let t := length w0 in
  arbitraryStream (VStream h) options w0
  = (Return t,
     wired_input h t w0
       ++ [mkStage (FFmpeg (arbitraryStream_FFmpegArgs (VStream h) o))
             [("close", DestroyAll [t])] [] [] 0]).
Proof.
  intros Hh Hopus o t. unfold arbitraryStream.
  cbn [truthy typeof negb]. rewrite Hopus. run_call.
  rewrite alter_app_l by lia.
  rewrite alter_app_l by (rewrite length_alter; lia).
  rewrite alter_new_at0 by (now rewrite !length_alter).
  reflexivity.
Qed.

Lemma arbitraryStream_stream_opus (h : handle)
    (options : option StreamOptions) (w0 : world) :
  h < length w0 ->
  truthy (opusEncoded (nullish_default options)) = true ->
  let o := nullish_default options in
  let t := length w0 in
  arbitraryStream (VStream h) options w0
  = (Return (t + 1),
     wired_input h t w0
       ++ [mkStage (FFmpeg (arbitraryStream_FFmpegArgs (VStream h) o))
             [] [t + 1] [] 0;
           mkStage (OpusEncoder 48000 2 960)
             [("close", DestroyAll [t; t + 1])] [] [] 0]).
Proof.
  intros Hh Hopus o t. unfold arbitraryStream.
  cbn [truthy typeof negb]. rewrite Hopus. run_call.
  rewrite alter_app_l by lia.
  rewrite alter_app_l by (rewrite length_alter; lia).
  repeat (rewrite length_app || rewrite length_alter). simpl.
  rewrite <- app_assoc.
  rewrite alter_new_at0 by (now rewrite !length_alter).
  rewrite alter_new_at by (now rewrite !length_alter).
  reflexivity.
Qed.

(** ** Validation *)

Lemma typeof_string (v : value) :
  typeof v = "string" <-> exists s, v = VString s.
Proof.
  split; [|intros [s ->]; reflexivity].
  destruct v; simpl; try discriminate; eauto.
Qed.

Lemma falsy_values (v : value) :
  truthy v = false <->
  v = VUndefined \/ v = VNull \/ v = VBool false
  \/ (exists sign, v = VNumber (S754_zero sign)) \/ v = VNumber S754_nan
  \/ v = VBigInt 0 \/ v = VString "".
Proof.
  split.
  - destruct v as [| |[]|[]|s| | | | |z| |]; simpl; try discriminate;
      eauto 10.
    + intros H. apply negb_false_iff, String.eqb_eq in H. subst. eauto 10.
    + intros H. apply negb_false_iff, Z.eqb_eq in H. subst. eauto 10.
  - intros [->|[->|[->|[[sign ->]|[->|[->| ->]]]]]]; reflexivity.
Qed.

Lemma StreamDownloader_returns_inv (url : value)
    (options : option StreamOptions) (w0 w1 : world) (out : handle) :
  StreamDownloader url options w0 = (Return out, w1) ->
  exists s, url = VString s /\ s <> "".
Proof.
  unfold StreamDownloader. intros H.
  destruct (truthy url) eqn:Ht; [|discriminate H]. cbn [negb] in H.
  destruct (String.eqb_spec (typeof url) "string") as [Hs|]; [|discriminate H].
  apply typeof_string in Hs as [s ->]. exists s. split; [reflexivity|].
  intros ->. discriminate Ht.
Qed.

Lemma arbitraryStream_returns_inv (stream : value)
    (options : option StreamOptions) (w0 w1 : world) (out : handle) :
  arbitraryStream stream options w0 = (Return out, w1) ->
  (exists s, stream = VString s /\ s <> "")
  \/ (exists bytes, stream = VBuffer bytes)
  \/ (exists h, stream = VStream h).
Proof.
  unfold arbitraryStream. intros H.
  destruct (truthy stream) eqn:Ht; [|discriminate H].
  destruct stream; try discriminate Ht; eauto;
    try (cbn in H; discriminate H).
  left. eexists. split; [reflexivity|]. intros ->. discriminate Ht.
Qed.

(** C9, amended.  A falsy [url] makes [StreamDownloader] throw
    ["No input url provided"], a truthy one that is not a string makes it
    throw the [SyntaxError]; either way the heap is the one the call
    started on, so no stage was constructed.  A string other than the empty
    one passes validation, and the call returns. *)
Theorem StreamDownloader_validation (url : value)
    (options : option StreamOptions) (w : world) :
  (truthy url = false ->
   StreamDownloader url options w = (Throw (Error "No input url provided"), w))
  /\ (truthy url = true -> typeof url <> "string" ->
      StreamDownloader url options w
      = (Throw (SyntaxError ("input URL must be a string. Received "
                               +:+ typeof url +:+ "!")), w))
  /\ (forall s, url = VString s -> s <> "" ->
      exists out w', StreamDownloader url options w = (Return out, w')).
Proof.
  split; [|split].
  - intros Ht. unfold StreamDownloader. now rewrite Ht.
  - intros Ht Hty. unfold StreamDownloader. rewrite Ht. cbn [negb].
    destruct (String.eqb_spec (typeof url) "string"); [contradiction|].
    reflexivity.
  - intros s -> Hs.
    destruct (truthy (opusEncoded (nullish_default options))) eqn:Hopus.
    + rewrite StreamDownloader_opus by assumption. eauto.
    + rewrite StreamDownloader_plain by assumption. eauto.
Qed.

(** Two adjacent elements of a list. *)
Lemma adjacent_in_args (pre post : list string) (a b : string) :
  exists i, (pre ++ a :: b :: post) !! i = Some a
            /\ (pre ++ a :: b :: post) !! (S i) = Some b.
Proof.
  exists (length pre). split.
  - now rewrite lookup_new0.
  - replace (S (length pre)) with (length pre + 1) by lia.
    now rewrite lookup_new.
Qed.

Lemma buffer_args_shape (bytes : list Byte.byte) (o : StreamOptions) :
  arbitraryStream_FFmpegArgs (VBuffer bytes) o
  = unshift_seek o (common_args o) ++ ["-i"; "-"]
      ++ match encoderArgs o with VArray xs => xs | _ => [] end.
Proof.
  unfold arbitraryStream_FFmpegArgs, concat_encoderArgs, unshift_seek. simpl.
  destruct (seek o) as [n|]; simpl; [destruct (Number_isNaN n); simpl|];
    destruct (encoderArgs o); simpl; reflexivity.
Qed.

(** C10, amended.  [arbitraryStream] throws ["No stream source provided"]
    exactly when its input is falsy, leaving the heap untouched; the falsy
    values are [undefined], [null], [false], the two zeros, [NaN], the
    BigInt [0n] and the empty string.  A [Buffer] of length zero is none of them: the call
    returns, the transcoder's arguments carry ["-i"; "-"], and the buffer
    is wrapped into a readable that is piped into the transcoder. *)
Theorem arbitraryStream_validation :
  (forall (stream : value) (options : option StreamOptions) (w : world),
     (exists w', arbitraryStream stream options w
                 = (Throw (Error "No stream source provided"), w'))
     <-> truthy stream = false)
  /\ (forall (stream : value) (options : option StreamOptions) (w : world),
        truthy stream = false ->
        arbitraryStream stream options w
        = (Throw (Error "No stream source provided"), w))
  /\ (forall stream : value,
        truthy stream = false <->
        stream = VUndefined \/ stream = VNull \/ stream = VBool false
        \/ (exists sign, stream = VNumber (S754_zero sign))
        \/ stream = VNumber S754_nan \/ stream = VBigInt 0
        \/ stream = VString "")
  /\ (forall (options : option StreamOptions) (w : world),
        exists (out : handle) (w' : world) (args : list string) (i : nat),
          arbitraryStream (VBuffer []) options w = (Return out, w')
          /\ kind_of w' (length w) = Some (FFmpeg args)
          /\ args !! i = Some "-i" /\ args !! (S i) = Some "-"
          /\ kind_of w' (length w + 1) = Some (ReadableFrom [])
          /\ pipes_of w' (length w + 1) = [length w]).
Proof.
  assert (Hfalsy : forall stream options w, truthy stream = false ->
            arbitraryStream stream options w
            = (Throw (Error "No stream source provided"), w)).
  { intros stream options w Ht. unfold arbitraryStream. now rewrite Ht. }
  split; [|split; [exact Hfalsy|split; [exact falsy_values|]]].
  - intros stream options w. split; [|eauto].
    intros [w' H]. destruct (truthy stream) eqn:Ht; [|reflexivity].
    exfalso. unfold arbitraryStream in H. rewrite Ht in H. cbn [negb] in H.
    destruct stream; try discriminate Ht;
      try (cbn in H; discriminate H);
      destruct (truthy (opusEncoded (nullish_default options)));
      cbn in H; discriminate H.
  - intros options w.
    pose proof (buffer_args_shape [] (nullish_default options)) as Hargs.
    destruct (adjacent_in_args
                (unshift_seek (nullish_default options)
                   (common_args (nullish_default options)))
                match encoderArgs (nullish_default options) with
                | VArray xs => xs | _ => [] end "-i" "-") as (i & Hi & HSi).
    destruct (truthy (opusEncoded (nullish_default options))) eqn:Hopus.
    + rewrite arbitraryStream_buffer_opus by assumption.
      do 3 eexists. exists i. split; [reflexivity|].
      unfold kind_of, pipes_of. heap_norm. rewrite Hargs. auto.
    + rewrite arbitraryStream_buffer_plain by assumption.
      do 3 eexists. exists i. split; [reflexivity|].
      unfold kind_of, pipes_of. heap_norm. rewrite Hargs. auto.
Qed.

(** ** Teardown when the returned stream closes *)

Lemma above_boundary (n h : nat) : n <= h -> exists j, h = n + j.
Proof. intros H. exists (h - n). lia. Qed.

Ltac solve_close :=
  lazymatch goal with
  | |- close_tears_down (length ?W) _ _ => split; [exists (length W + 0)|]
  end;
  [ eexists; split; [lia|];
    unfold kind_of; rewrite lookup_new; reflexivity
  | let a := fresh "args" in
    let fuel := fresh "fuel" in
    let Hfuel := fresh "Hfuel" in
    let x := fresh "x" in
    let k := fresh "k" in
    let j := fresh "j" in
    let Hx := fresh "Hx" in
    let Hk := fresh "Hk" in
    let Hte := fresh "Hte" in
    intros a [|fuel] Hfuel; [lia|];
    cbn [emit]; heap_norm; unfold destroy; heap_norm;
    eexists; split; [reflexivity|];
    intros x k Hx Hk Hte;
    apply above_boundary in Hx as [j ->];
    unfold kind_of, destroy_calls_on in *;
    rewrite ?lookup_new in *;
    destruct j as [|[|[|j]]]; simpl in *;
    try discriminate Hk;
    injection Hk as <-; simpl in Hte; try discriminate Hte;
    split; reflexivity ].

Lemma close_StreamDownloader (url : value) (options : option StreamOptions)
    (w0 w1 : world) (out : handle) :
  StreamDownloader url options w0 = (Return out, w1) ->
  close_tears_down (length w0) out w1.
Proof.
  intros H.
  destruct (StreamDownloader_returns_inv _ _ _ _ _ H) as (s & -> & Hs).
  destruct (truthy (opusEncoded (nullish_default options))) eqn:Hopus.
  - rewrite StreamDownloader_opus in H by assumption.
    injection H as <- <-. solve_close.
  - rewrite StreamDownloader_plain in H by assumption.
    injection H as <- <-. solve_close.
Qed.

Lemma close_arbitraryStream (stream : value)
    (options : option StreamOptions) (w0 w1 : world) (out : handle) :
  live w0 stream ->
  arbitraryStream stream options w0 = (Return out, w1) ->
  close_tears_down (length w0) out w1.
Proof.
  intros Hlive H.
  destruct (arbitraryStream_returns_inv _ _ _ _ _ H)
    as [(s & -> & Hs)|[(bytes & ->)|(h & ->)]];
    destruct (truthy (opusEncoded (nullish_default options))) eqn:Hopus.
  - rewrite arbitraryStream_string_opus in H by assumption.
    injection H as <- <-. solve_close.
  - rewrite arbitraryStream_string_plain in H by assumption.
    injection H as <- <-. solve_close.
  - rewrite arbitraryStream_buffer_opus in H by assumption.
    injection H as <- <-. solve_close.
  - rewrite arbitraryStream_buffer_plain in H by assumption.
    injection H as <- <-. solve_close.
  - rewrite arbitraryStream_stream_opus in H by assumption.
    injection H as <- <-.
    pose proof (length_wired_input h (length w0) w0) as HW. revert HW.
    generalize (wired_input h (length w0) w0) as W. intros W HW.
    rewrite <- HW. solve_close.
  - rewrite arbitraryStream_stream_plain in H by assumption.
    injection H as <- <-.
    pose proof (length_wired_input h (length w0) w0) as HW. revert HW.
    generalize (wired_input h (length w0) w0) as W. intros W HW.
    rewrite <- HW. solve_close.
Qed.

(** C6. Whichever entry point returned [out], a [close] on [out] invokes
    [destroy] on the transcoder the call constructed, and on the encoder
    when the call constructed one.  For [arbitraryStream] a stream passed
    in has to exist on the heap. *)
Theorem close_destroys_transcoder_and_encoder
    (options : option StreamOptions) (w0 w1 : world) (out : handle) :
  (forall url : value,
     StreamDownloader url options w0 = (Return out, w1) ->
     close_tears_down (length w0) out w1)
  /\ (forall stream : value,
        live w0 stream ->
        arbitraryStream stream options w0 = (Return out, w1) ->
        close_tears_down (length w0) out w1).
Proof.
  split.
  - intros url. apply close_StreamDownloader.
  - intros stream. apply close_arbitraryStream.
Qed.

(** ** The event relay of [StreamDownloader] *)

Ltac case_event ev :=
  repeat match goal with
         | |- context [String.eqb ev ?a] =>
             destruct (String.eqb_spec ev a) as [->|?]; simpl
         end.

Lemma emit_plain_chain (w : world) (args : list string) (source : stage_kind)
    (seen_t seen_s : list (string * list value)) (destroyed_t fuel : nat)
    (event : string) (a : list value) :
  emit (S (S fuel)) (length w + 1) event a
    (plain_chain w args source seen_t destroyed_t seen_s)
  = Some (plain_chain w args source
            (seen_t ++ lifecycle_only [(event, a)])
            (destroyed_t + count_errors [(event, a)])
            (seen_s ++ [(event, a)])).
Proof.
  unfold plain_chain, lifecycle_only, count_errors, is_lifecycle, evn.
  cbn [emit]. heap_norm. unfold listeners_for. simpl.
  case_event event; heap_norm; unfold destroy; heap_norm;
    rewrite ?app_nil_r, ?Nat.add_0_r, ?Nat.add_1_r; reflexivity.
Qed.

Lemma emit_opus_chain (w : world) (args : list string) (source : stage_kind)
    (seen_t seen_s seen_o : list (string * list value)) (fuel : nat)
    (event : string) (a : list value) :
  emit (S (S fuel)) (length w + 1) event a
    (opus_chain w args source seen_t seen_s seen_o)
  = Some (opus_chain w args source seen_t (seen_s ++ [(event, a)])
            (seen_o ++ lifecycle_only [(event, a)])).
Proof.
  unfold opus_chain, lifecycle_only, is_lifecycle, evn.
  cbn [emit]. heap_norm. unfold listeners_for. simpl.
  case_event event; heap_norm; rewrite ?app_nil_r; reflexivity.
Qed.

Lemma lifecycle_only_cons (x : string * list value)
    (events : list (string * list value)) :
  lifecycle_only (x :: events) = lifecycle_only [x] ++ lifecycle_only events.
Proof.
  unfold lifecycle_only. simpl. now destruct (is_lifecycle (fst x)).
Qed.

Lemma count_errors_cons (x : string * list value)
    (events : list (string * list value)) :
  count_errors (x :: events) = count_errors [x] + count_errors events.
Proof.
  unfold count_errors. simpl. now destruct (String.eqb (fst x) "error").
Qed.

Lemma is_lifecycle_spec (event : string) :
  is_lifecycle event = true <-> In event evn.
Proof.
  unfold is_lifecycle. rewrite existsb_exists. split.
  - intros (x & Hx & Heq). apply String.eqb_eq in Heq. now subst.
  - intros H. exists event. split; [assumption|apply String.eqb_refl].
Qed.

Lemma lifecycle_only_all (events : list (string * list value)) :
  List.Forall (fun ea => In (fst ea) evn) events ->
  lifecycle_only events = events.
Proof.
  induction 1 as [|x events Hx _ IH]; [reflexivity|].
  rewrite lifecycle_only_cons, IH. unfold lifecycle_only. simpl.
  apply is_lifecycle_spec in Hx. now rewrite Hx.
Qed.

Lemma emit_all_plain_chain (w : world) (args : list string)
    (source : stage_kind) (fuel : nat)
    (events seen_t seen_s : list (string * list value)) (destroyed_t : nat) :
  emit_all (S (S fuel)) (length w + 1) events
    (plain_chain w args source seen_t destroyed_t seen_s)
  = Some (plain_chain w args source
            (seen_t ++ lifecycle_only events)
            (destroyed_t + count_errors events)
            (seen_s ++ events)).
Proof.
  revert seen_t seen_s destroyed_t.
  induction events as [|[event a] events IH]; intros seen_t seen_s destroyed_t.
  - cbn [emit_all]. unfold lifecycle_only, count_errors. simpl.
    now rewrite !app_nil_r, Nat.add_0_r.
  - cbn [emit_all]. rewrite emit_plain_chain. cbn [mbind option_bind].
    rewrite IH.
    rewrite (lifecycle_only_cons (event, a) events).
    rewrite (count_errors_cons (event, a) events).
    rewrite <- !app_assoc, Nat.add_assoc. reflexivity.
Qed.

Lemma emit_all_opus_chain (w : world) (args : list string)
    (source : stage_kind) (fuel : nat)
    (events seen_t seen_s seen_o : list (string * list value)) :
  emit_all (S (S fuel)) (length w + 1) events
    (opus_chain w args source seen_t seen_s seen_o)
  = Some (opus_chain w args source seen_t (seen_s ++ events)
            (seen_o ++ lifecycle_only events)).
Proof.
  revert seen_s seen_o.
  induction events as [|[event a] events IH]; intros seen_s seen_o.
  - cbn [emit_all]. unfold lifecycle_only. simpl. now rewrite !app_nil_r.
  - cbn [emit_all]. rewrite emit_opus_chain. cbn [mbind option_bind].
    rewrite IH. rewrite (lifecycle_only_cons (event, a) events).
    rewrite <- !app_assoc. reflexivity.
Qed.

Lemma StreamDownloader_plain_chain (s : string)
    (options : option StreamOptions) (w0 : world) :
  s <> "" ->
  truthy (opusEncoded (nullish_default options)) = false ->
  StreamDownloader (VString s) options w0
  = (Return (length w0),
     plain_chain w0 (StreamDownloader_FFmpegArgs (nullish_default options))
       (Ytdl (VString s) (nullish_default options)) [] 0 []).
Proof. intros Hs Hopus. now rewrite StreamDownloader_plain. Qed.

Lemma StreamDownloader_opus_chain (s : string)
    (options : option StreamOptions) (w0 : world) :
  s <> "" ->
  truthy (opusEncoded (nullish_default options)) = true ->
  StreamDownloader (VString s) options w0
  = (Return (length w0 + 2),
     opus_chain w0 (StreamDownloader_FFmpegArgs (nullish_default options))
       (Ytdl (VString s) (nullish_default options)) [] [] []).
Proof. intros Hs Hopus. now rewrite StreamDownloader_opus. Qed.

(** C1, amended.  For [StreamDownloader], with or without Opus: whatever
    sequence of events is raised on the remote source, the returned stream
    sees those of them whose name is in [evn], with their arguments and in
    the order raised; when all of them are in [evn] it sees the whole
    sequence. *)
Theorem StreamDownloader_relays_lifecycle_events (url : value)
    (options : option StreamOptions) (w0 w1 : world) (out : handle) :
  StreamDownloader url options w0 = (Return out, w1) ->
  exists src : handle,
    length w0 <= src
    /\ kind_of w1 src = Some (Ytdl url (nullish_default options))
    /\ forall (events : list (string * list value)) (fuel : nat),
         2 <= fuel ->
         exists w2 : world,
           emit_all fuel src events w1 = Some w2
           /\ emitted_on w2 src = events
           /\ emitted_on w2 out = lifecycle_only events
           /\ (List.Forall (fun ea => In (fst ea) evn) events ->
               emitted_on w2 out = events).
Proof.
  intros H.
  destruct (StreamDownloader_returns_inv _ _ _ _ _ H) as (s & -> & Hs).
  exists (length w0 + 1). split; [lia|].
  destruct (truthy (opusEncoded (nullish_default options))) eqn:Hopus.
  - rewrite StreamDownloader_opus_chain in H by assumption.
    injection H as <- <-.
    split; [unfold kind_of, opus_chain; now rewrite lookup_new|].
    intros events [|[|fuel]] Hfuel; try lia.
    rewrite emit_all_opus_chain. eexists. split; [reflexivity|].
    unfold emitted_on, opus_chain. rewrite !lookup_new. simpl.
    repeat split; try reflexivity. intros Hall.
    now apply lifecycle_only_all.
  - rewrite StreamDownloader_plain_chain in H by assumption.
    injection H as <- <-.
    split; [unfold kind_of, plain_chain; now rewrite lookup_new|].
    intros events [|[|fuel]] Hfuel; try lia.
    rewrite emit_all_plain_chain. eexists. split; [reflexivity|].
    unfold emitted_on, plain_chain. rewrite lookup_new, lookup_new0. simpl.
    repeat split; try reflexivity. intros Hall.
    now apply lifecycle_only_all.
Qed.

(** ** Errors of the input and of the transcoder *)

(** Without Opus, [StreamDownloader] destroys the transcoder when the
    remote source raises an error (line 89). *)
Lemma source_error_destroys_transcoder_plain (s : string)
    (options : option StreamOptions) (w0 : world) (a : list value)
    (fuel : nat) :
  s <> "" ->
  truthy (opusEncoded (nullish_default options)) = false ->
  exists w1 w2,
    StreamDownloader (VString s) options w0 = (Return (length w0), w1)
    /\ emit (S (S fuel)) (length w0 + 1) "error" a w1 = Some w2
    /\ destroy_calls_on w2 (length w0) = 1.
Proof.
  intros Hs Hopus. rewrite StreamDownloader_plain_chain by assumption.
  do 2 eexists. split; [reflexivity|]. rewrite emit_plain_chain.
  split; [reflexivity|].
  unfold destroy_calls_on, plain_chain. now rewrite lookup_new0.
Qed.

(** With Opus it does not: the error is relayed to the encoder and that is
    all; [destroy] is invoked on nothing the call constructed. *)
Lemma source_events_opus_destroy_nothing (s : string)
    (options : option StreamOptions) (w0 : world)
    (events : list (string * list value)) (fuel : nat) :
  s <> "" ->
  truthy (opusEncoded (nullish_default options)) = true ->
  exists w1 w2,
    StreamDownloader (VString s) options w0 = (Return (length w0 + 2), w1)
    /\ emit_all (S (S fuel)) (length w0 + 1) events w1 = Some w2
    /\ emitted_on w2 (length w0 + 2) = lifecycle_only events
    /\ forall h, length w0 <= h -> destroy_calls_on w2 h = 0.
Proof.
  intros Hs Hopus. rewrite StreamDownloader_opus_chain by assumption.
  do 2 eexists. split; [reflexivity|]. rewrite emit_all_opus_chain.
  split; [reflexivity|]. unfold emitted_on, destroy_calls_on, opus_chain.
  split; [now rewrite lookup_new|].
  intros h Hh. apply above_boundary in Hh as [j ->]. rewrite lookup_new.
  now destruct j as [|[|[|j]]].
Qed.

(** [arbitraryStream] destroys the transcoder when the readable made from
    a buffer raises an error, with or without Opus (line 193). *)
Lemma buffer_error_destroys_transcoder (bytes : list Byte.byte)
    (options : option StreamOptions) (w0 : world) (a : list value)
    (fuel : nat) :
  exists out w1 w2,
    arbitraryStream (VBuffer bytes) options w0 = (Return out, w1)
    /\ kind_of w1 (length w0 + 1) = Some (ReadableFrom bytes)
    /\ emit (S fuel) (length w0 + 1) "error" a w1 = Some w2
    /\ destroy_calls_on w2 (length w0) = 1.
Proof.
  destruct (truthy (opusEncoded (nullish_default options))) eqn:Hopus;
    [rewrite arbitraryStream_buffer_opus by assumption
    |rewrite arbitraryStream_buffer_plain by assumption];
    do 3 eexists; (split; [reflexivity|]);
    unfold kind_of; rewrite lookup_new; (split; [reflexivity|]);
    cbn [emit]; heap_norm; unfold destroy; heap_norm;
    (split; [reflexivity|]);
    unfold destroy_calls_on; now rewrite lookup_new0.
Qed.

(** With Opus, [StreamDownloader] relays an error of the transcoder to the
    encoder it returns (line 102): the listener passes on its first
    argument. *)
Lemma transcoder_error_relayed_by_StreamDownloader (s : string)
    (options : option StreamOptions) (w0 : world) (a : list value)
    (fuel : nat) :
  s <> "" ->
  truthy (opusEncoded (nullish_default options)) = true ->
  exists w1 w2,
    StreamDownloader (VString s) options w0 = (Return (length w0 + 2), w1)
    /\ emit (S (S fuel)) (length w0) "error" a w1 = Some w2
    /\ emitted_on w2 (length w0 + 2) = [("error", [List.hd VUndefined a])].
Proof.
  intros Hs Hopus. rewrite StreamDownloader_opus by assumption.
  do 2 eexists. split; [reflexivity|].
  cbn [emit]. heap_norm. split; [reflexivity|].
  unfold emitted_on. now rewrite lookup_new.
Qed.

(** [arbitraryStream] registers no such listener: with Opus, an error of
    the transcoder is seen on the transcoder and not on the encoder. *)
Lemma transcoder_error_not_relayed_by_arbitraryStream (s : string)
    (options : option StreamOptions) (w0 : world) (a : list value)
    (fuel : nat) :
  s <> "" ->
  truthy (opusEncoded (nullish_default options)) = true ->
  exists w1 w2,
    arbitraryStream (VString s) options w0 = (Return (length w0 + 1), w1)
    /\ kind_of w1 (length w0 + 1) = Some (OpusEncoder 48000 2 960)
    /\ emit (S fuel) (length w0) "error" a w1 = Some w2
    /\ emitted_on w2 (length w0) = [("error", a)]
    /\ emitted_on w2 (length w0 + 1) = [].
Proof.
  intros Hs Hopus. rewrite arbitraryStream_string_opus by assumption.
  do 2 eexists. split; [reflexivity|].
  unfold kind_of. rewrite lookup_new. split; [reflexivity|].
  cbn [emit]. heap_norm. split; [reflexivity|].
  unfold emitted_on. now rewrite lookup_new, lookup_new0.
Qed.

(** ** Scenarios *)

(** C5. The kpop call builds exactly the twenty arguments of the
    scenario and returns the transcoder: the one stage the call allocates,
    an [FFmpeg] holding them; no encoder is constructed. *)
Theorem kpop_scenario (w0 : world) :
  arbitraryStream (VString "https://stream/kpop")
    (Some {| seek := None;
             encoderArgs := VArray ["-af"; "asetrate=44100*1.25"];
             fmt := VString "mp3";
             opusEncoded := VUndefined |}) w0
  = (Return (length w0),
     w0 ++ [mkStage
              (FFmpeg ["-reconnect"; "1"; "-reconnect_streamed"; "1";
                       "-reconnect_delay_max"; "5"; "-i";
                       "https://stream/kpop"; "-analyzeduration"; "0";
                       "-loglevel"; "0"; "-f"; "mp3"; "-ar"; "48000"; "-ac";
                       "2"; "-af"; "asetrate=44100*1.25"])
              [("close", DestroyAll [length w0])] [] [] 0]).
Proof. now rewrite arbitraryStream_string_plain. Qed.

Lemma in_unshift_seek (o : StreamOptions) (args : list string) (f : string) :
  In f (unshift_seek o args) ->
  f = "-ss" \/ In f (seek_rendering o) \/ In f args.
Proof.
  unfold unshift_seek, seek_rendering.
  destruct (negb (isNaN (seek o))); [|auto].
  destruct (seek o); simpl; intuition.
Qed.

(** C7, amended.  For a [Buffer], [arbitraryStream] returns; the
    transcoder's arguments are the seek pair if any, the ten common
    arguments, ["-i"; "-"], then [encoderArgs] as given.  A reconnect flag
    is among them only when the caller passed it: as an element of
    [encoderArgs], as [fmt], or as what [seek] renders to.  The buffer
    becomes a readable that is piped into the transcoder. *)
Theorem buffer_input_reads_stdin (bytes : list Byte.byte)
    (options : option StreamOptions) (w0 : world) :
  let o := nullish_default options in
  let args := arbitraryStream_FFmpegArgs (VBuffer bytes) o in
  exists (out : handle) (w1 : world),
    arbitraryStream (VBuffer bytes) options w0 = (Return out, w1)
    /\ kind_of w1 (length w0) = Some (FFmpeg args)
    /\ args = unshift_seek o (common_args o) ++ ["-i"; "-"]
                ++ encoderArgs_list o
    /\ (forall f, In f reconnect_flags -> In f args ->
          fmt o = VString f \/ In f (seek_rendering o)
          \/ In f (encoderArgs_list o))
    /\ kind_of w1 (length w0 + 1) = Some (ReadableFrom bytes)
    /\ pipes_of w1 (length w0 + 1) = [length w0].
Proof.
  intros o args.
  assert (Hshape : args = unshift_seek o (common_args o) ++ ["-i"; "-"]
                            ++ encoderArgs_list o)
    by apply buffer_args_shape.
  assert (Hflags : forall f, In f reconnect_flags -> In f args ->
            fmt o = VString f \/ In f (seek_rendering o)
            \/ In f (encoderArgs_list o)).
  { intros f Hf Hin. rewrite Hshape in Hin.
    apply in_app_or in Hin as [Hin|Hin].
    - apply in_unshift_seek in Hin as [->|[Hin|Hin]]; [|auto|].
      + simpl in Hf. intuition discriminate.
      + unfold common_args, fmt_or_default in Hin. simpl in Hin, Hf.
        destruct (fmt o) eqn:Hfmt;
          intuition (subst; try discriminate; auto).
    - apply in_app_or in Hin as [Hin|Hin]; [|auto].
      simpl in Hin, Hf. intuition (subst; discriminate). }
  destruct (truthy (opusEncoded o)) eqn:Hopus;
    [subst o; rewrite arbitraryStream_buffer_opus by assumption
    |subst o; rewrite arbitraryStream_buffer_plain by assumption];
    do 2 eexists; (split; [reflexivity|]);
    unfold kind_of, pipes_of; rewrite lookup_new, lookup_new0;
    repeat split; assumption.
Qed.

(** ** More on the argument lists *)

(** X1. An [encoderArgs] array goes to the end of the list, element by
    element and in order, after everything else either entry point builds. *)
Theorem encoderArgs_appended_in_order (options : StreamOptions)
    (xs : list string) :
  StreamDownloader_FFmpegArgs (set_encoderArgs (VArray xs) options)
    = StreamDownloader_FFmpegArgs (set_encoderArgs VUndefined options) ++ xs
  /\ forall stream : value,
       arbitraryStream_FFmpegArgs stream (set_encoderArgs (VArray xs) options)
       = arbitraryStream_FFmpegArgs stream (set_encoderArgs VUndefined options)
           ++ xs.
Proof.
  unfold StreamDownloader_FFmpegArgs, arbitraryStream_FFmpegArgs,
    concat_encoderArgs.
  split; reflexivity.
Qed.

(** X2. A [fmt] that is not a string is not passed on: either entry point
    builds the list it builds for [fmt: "s16le"]. *)
Theorem non_string_fmt_is_s16le (options : StreamOptions) (v : value) :
  typeof v <> "string" ->
  StreamDownloader_FFmpegArgs (set_fmt v options)
    = StreamDownloader_FFmpegArgs (set_fmt (VString "s16le") options)
  /\ forall stream : value,
       arbitraryStream_FFmpegArgs stream (set_fmt v options)
       = arbitraryStream_FFmpegArgs stream (set_fmt (VString "s16le") options).
Proof.
  intros Hv.
  assert (Hfmt : fmt_or_default (set_fmt v options) = "s16le").
  { unfold fmt_or_default. destruct v; try reflexivity. now contradict Hv. }
  unfold StreamDownloader_FFmpegArgs, arbitraryStream_FFmpegArgs,
    arbitraryStream_initial_args, common_args.
  rewrite Hfmt. split; reflexivity.
Qed.

(** X3. A [seek] that is [NaN], like an absent one, adds nothing: either
    entry point builds the list it builds without [seek]. *)
Theorem NaN_seek_is_ignored (options : StreamOptions) :
  isNaN (seek options) = true ->
  StreamDownloader_FFmpegArgs options
    = StreamDownloader_FFmpegArgs (set_seek None options)
  /\ forall stream : value,
       arbitraryStream_FFmpegArgs stream options
       = arbitraryStream_FFmpegArgs stream (set_seek None options).
Proof.
  intros Hnan.
  assert (Hseek : forall args, unshift_seek options args = args).
  { intros args. unfold unshift_seek. now rewrite Hnan. }
  unfold StreamDownloader_FFmpegArgs, arbitraryStream_FFmpegArgs.
  split; [|intros stream]; rewrite Hseek; reflexivity.
Qed.

(** X4. A truthy input that is neither a string, a [Buffer] nor a stream
    gets past the validation of [arbitraryStream]: the call throws a
    [TypeError] only at [pipe], when the transcoder has been constructed,
    and leaves it on the heap with no listener and no [destroy]. *)
Theorem arbitraryStream_unpipeable_input (stream : value)
    (options : option StreamOptions) (w0 : world) :
  truthy stream = true ->
  typeof stream <> "string" ->
  instanceof_Buffer stream = false ->
  (forall h, stream <> VStream h) ->
  arbitraryStream stream options w0
  = (Throw (TypeError "stream.pipe is not a function"),
     w0 ++ [fresh (FFmpeg (arbitraryStream_FFmpegArgs stream
                             (nullish_default options)))]).
Proof.
  intros Ht Hty Hbuf Hstream. unfold arbitraryStream. rewrite Ht.
  destruct stream as [| |b|n|s|xs| |bytes|h|z| |];
    try discriminate Ht; try discriminate Hbuf;
    try (now contradict Hty); try (now destruct (Hstream h));
    reflexivity.
Qed.

(** ** The pipelines as built *)

(** X5. A call of [StreamDownloader] that returns leaves the stages that
    existed as they were and allocates, in this order, the transcoder with
    the arguments built, the remote source opened with the url and the
    options, piped into the transcoder, and, only when [opusEncoded] is
    truthy, an encoder at 48000 Hz, 2 channels and frames of 960, which the
    transcoder is piped into and which is returned; otherwise the
    transcoder is returned and piped nowhere. *)
Theorem StreamDownloader_pipeline (url : value)
    (options : option StreamOptions) (w0 w1 : world) (out : handle) :
  StreamDownloader url options w0 = (Return out, w1) ->
  let o := nullish_default options in
  let t := length w0 in
  take t w1 = w0
  /\ kind_of w1 t = Some (FFmpeg (StreamDownloader_FFmpegArgs o))
  /\ kind_of w1 (t + 1) = Some (Ytdl url o)
  /\ pipes_of w1 (t + 1) = [t]
  /\ if truthy (opusEncoded o)
     then length w1 = t + 3 /\ out = t + 2
          /\ kind_of w1 out = Some (OpusEncoder 48000 2 960)
          /\ pipes_of w1 t = [out] /\ pipes_of w1 out = []
     else length w1 = t + 2 /\ out = t /\ pipes_of w1 t = [].
Proof.
  intros H o t. subst o t.
  destruct (StreamDownloader_returns_inv _ _ _ _ _ H) as (s & -> & Hs).
  destruct (truthy (opusEncoded (nullish_default options))) eqn:Hopus;
    [rewrite StreamDownloader_opus in H by assumption
    |rewrite StreamDownloader_plain in H by assumption];
    injection H as <- <-;
    unfold kind_of, pipes_of;
    rewrite take_app_length, length_app, ?lookup_new, ?lookup_new0;
    simpl; repeat split; reflexivity.
Qed.

(** X6. A call of [arbitraryStream] that returns allocates the transcoder
    first.  For a string nothing else is allocated before the encoder and
    nothing is piped into the transcoder; for a [Buffer] a readable made
    from it follows and is piped into the transcoder; a stream passed in is
    piped into the transcoder and gets one error listener, all other
    stages that existed staying as they were.  The encoder is allocated
    last, only when [opusEncoded] is truthy, and is then what is
    returned. *)
Theorem arbitraryStream_pipeline (stream : value)
    (options : option StreamOptions) (w0 w1 : world) (out : handle) :
  live w0 stream ->
  arbitraryStream stream options w0 = (Return out, w1) ->
  let o := nullish_default options in
  let t := length w0 in
  kind_of w1 t = Some (FFmpeg (arbitraryStream_FFmpegArgs stream o))
  /\ match stream with
     | VString _ =>
         take t w1 = w0 /\ out = length w1 - 1
         /\ length w1 = t + (if truthy (opusEncoded o) then 2 else 1)
     | VBuffer bytes =>
         take t w1 = w0
         /\ kind_of w1 (t + 1) = Some (ReadableFrom bytes)
         /\ pipes_of w1 (t + 1) = [t]
         /\ length w1 = t + (if truthy (opusEncoded o) then 3 else 2)
     | VStream h =>
         take t w1 = wired_input h t w0
         /\ length w1 = t + (if truthy (opusEncoded o) then 2 else 1)
     | _ => False
     end
  /\ if truthy (opusEncoded o)
     then out = length w1 - 1
          /\ kind_of w1 out = Some (OpusEncoder 48000 2 960)
          /\ pipes_of w1 t = [out] /\ pipes_of w1 out = []
     else out = t /\ pipes_of w1 t = [].
Proof.
  intros Hlive H o t. subst o t.
  destruct (arbitraryStream_returns_inv _ _ _ _ _ H)
    as [(s & -> & Hs)|[(bytes & ->)|(h & ->)]];
    destruct (truthy (opusEncoded (nullish_default options))) eqn:Hopus.
  - rewrite arbitraryStream_string_opus in H by assumption.
    injection H as <- <-. unfold kind_of, pipes_of.
    rewrite take_app_length, length_app, ?lookup_new, ?lookup_new0. simpl.
    replace (length w0 + 2 - 1) with (length w0 + 1) by lia.
    rewrite ?lookup_new. repeat split; reflexivity.
  - rewrite arbitraryStream_string_plain in H by assumption.
    injection H as <- <-. unfold kind_of, pipes_of.
    rewrite take_app_length, length_app, ?lookup_new, ?lookup_new0. simpl.
    repeat split; try reflexivity; lia.
  - rewrite arbitraryStream_buffer_opus in H by assumption.
    injection H as <- <-. unfold kind_of, pipes_of.
    rewrite take_app_length, length_app, ?lookup_new, ?lookup_new0. simpl.
    replace (length w0 + 3 - 1) with (length w0 + 2) by lia.
    rewrite ?lookup_new. repeat split; reflexivity.
  - rewrite arbitraryStream_buffer_plain in H by assumption.
    injection H as <- <-. unfold kind_of, pipes_of.
    rewrite take_app_length, length_app, ?lookup_new, ?lookup_new0. simpl.
    repeat split; reflexivity.
  - rewrite arbitraryStream_stream_opus in H by assumption.
    injection H as <- <-. unfold kind_of, pipes_of.
    pose proof (length_wired_input h (length w0) w0) as HW. revert HW.
    generalize (wired_input h (length w0) w0) as W. intros W HW.
    rewrite <- HW.
    rewrite take_app_length, length_app, ?lookup_new, ?lookup_new0. simpl.
    replace (length W + 2 - 1) with (length W + 1) by lia.
    rewrite ?lookup_new. repeat split; reflexivity.
  - rewrite arbitraryStream_stream_plain in H by assumption.
    injection H as <- <-. unfold kind_of, pipes_of.
    pose proof (length_wired_input h (length w0) w0) as HW. revert HW.
    generalize (wired_input h (length w0) w0) as W. intros W HW.
    rewrite <- HW.
    rewrite take_app_length, length_app, ?lookup_new, ?lookup_new0. simpl.
    repeat split; reflexivity.
Qed.

(** ** What delivering events can and cannot do *)

Lemma run_all_None (run : listener -> world -> option world)
    (ls : list listener) :
  foldl (fun acc l => acc ≫= run l) None ls = None.
Proof. induction ls as [|l ls IH]; [reflexivity|exact IH]. Qed.

Lemma run_all_inv (P : world -> Prop)
    (run : listener -> world -> option world) (ls : list listener) :
  (forall l x x', In l ls -> P x -> run l x = Some x' -> P x') ->
  forall x w', P x ->
    foldl (fun acc l => acc ≫= run l) (Some x) ls = Some w' -> P w'.
Proof.
  induction ls as [|l ls IH]; intros Hstep x w' Hx Hrun.
  - injection Hrun as <-. exact Hx.
  - cbn [foldl mbind option_bind] in Hrun.
    destruct (run l x) as [x1|] eqn:Hl.
    + apply (IH (fun l' y y' Hin => Hstep l' y y' (or_intror Hin)) x1 w');
        [|exact Hrun].
      exact (Hstep l x x1 (or_introl eq_refl) Hx Hl).
    + rewrite run_all_None in Hrun. discriminate Hrun.
Qed.

Lemma run_all_progress (P : world -> Prop)
    (run : listener -> world -> option world) (ls : list listener) :
  (forall l x, In l ls -> P x -> exists x', run l x = Some x' /\ P x') ->
  forall x, P x ->
    exists w', foldl (fun acc l => acc ≫= run l) (Some x) ls = Some w' /\ P w'.
Proof.
  induction ls as [|l ls IH]; intros Hstep x Hx.
  - exists x. split; [reflexivity|exact Hx].
  - destruct (Hstep l x (or_introl eq_refl) Hx) as (x1 & Hl & Hx1).
    cbn [foldl mbind option_bind]. rewrite Hl.
    apply IH; [|exact Hx1].
    intros l' y Hin. apply Hstep. now right.
Qed.

Lemma in_listeners_for (event : string) (s : stage) (l : listener) :
  In l (listeners_for event s) -> exists e, In (e, l) (listeners s).
Proof.
  unfold listeners_for. intros Hin.
  apply in_map_iff in Hin as ([e l'] & Heq & Hin). simpl in Heq. subst l'.
  apply filter_In in Hin as [Hin _]. eauto.
Qed.

Lemma wiring_alter (f : stage -> stage) (i : nat) (w : world) :
  (forall s, wiring (f s) = wiring s) ->
  wiring <$> alter f i w = wiring <$> w.
Proof.
  intros Hf. rewrite (list_fmap_alter wiring f id).
  - now apply list_alter_id.
  - apply Forall_forall. intros s _. apply Hf.
Qed.

Lemma wiring_destroy_all (targets : list handle) (w : world) :
  wiring <$> foldl (fun w' t => destroy t w') w targets = wiring <$> w.
Proof.
  revert w. induction targets as [|t targets IH]; intros w; [reflexivity|].
  cbn [foldl]. rewrite IH. unfold destroy. now apply wiring_alter.
Qed.

Lemma wiring_lookup (w w' : world) (h : nat) (s : stage) :
  wiring <$> w' = wiring <$> w ->
  w !! h = Some s ->
  exists s', w' !! h = Some s' /\ wiring s' = wiring s.
Proof.
  intros Hw Hs.
  assert (Hl : (wiring <$> w') !! h = Some (wiring s))
    by (rewrite Hw, list_lookup_fmap, Hs; reflexivity).
  rewrite list_lookup_fmap in Hl.
  destruct (w' !! h) as [s'|]; [|discriminate Hl].
  exists s'. split; [reflexivity|].
  change (Some (wiring s') = Some (wiring s)) in Hl. congruence.
Qed.

Lemma wiring_listeners (s s' : stage) :
  wiring s' = wiring s -> listeners s' = listeners s.
Proof. unfold wiring. now intros [= _ -> _]. Qed.

(** Delivering an event never changes what construction fixed: nothing is
    allocated, no listener is added or removed, no pipe changes. *)
Lemma emit_wiring (fuel : nat) (h : handle) (event : string)
    (a : list value) (w w' : world) :
  emit fuel h event a w = Some w' -> wiring <$> w' = wiring <$> w.
Proof.
  revert h event a w w'.
  induction fuel as [|fuel IH]; intros h event a w w' H; [discriminate H|].
  cbn [emit] in H. destruct (w !! h) as [s|]; [|discriminate H].
  revert H.
  apply (run_all_inv (fun x => wiring <$> x = wiring <$> w));
    [|now apply wiring_alter].
  intros l x x' _ Hx Hl. rewrite <- Hx.
  destruct l as [target e|target|targets]; cbn [run_listener] in Hl.
  - exact (IH _ _ _ _ _ Hl).
  - exact (IH _ _ _ _ _ Hl).
  - injection Hl as <-. apply wiring_destroy_all.
Qed.

Lemma nesting_le_wiring (n : nat) (w w' : world) (h : handle) :
  wiring <$> w' = wiring <$> w -> nesting_le n w h -> nesting_le n w' h.
Proof.
  intros Hw. revert h. induction n as [|n IH]; intros h; [exact id|].
  intros (s & Hs & Hall).
  destruct (wiring_lookup w w' h s Hw Hs) as (s' & Hs' & Heq).
  exists s'. split; [exact Hs'|]. rewrite (wiring_listeners _ _ Heq).
  eapply List.Forall_impl; [|exact Hall].
  intros el Hel. eapply List.Forall_impl; [|exact Hel]. exact IH.
Qed.

(** An event whose emitters nest at most [n] deep is delivered with
    fuel [n]. *)
Lemma emit_terminates (n fuel : nat) (h : handle) (event : string)
    (a : list value) (w : world) :
  nesting_le n w h -> n <= fuel -> exists w', emit fuel h event a w = Some w'.
Proof.
  revert fuel h event a w.
  induction n as [|n IH]; intros fuel h event a w Hn Hle; [destruct Hn|].
  destruct Hn as (s & Hs & Hall).
  destruct fuel as [|fuel]; [lia|]. cbn [emit]. rewrite Hs.
  assert (Hstep : forall l x,
             In l (listeners_for event s) ->
             wiring <$> x = wiring <$> w ->
             exists x', run_listener (emit fuel) a l x = Some x'
                        /\ wiring <$> x' = wiring <$> w);
    [|destruct (run_all_progress _ _ _ Hstep
                  (alter (record_event event a) h w))
        as (w' & Hw' & _); [now apply wiring_alter|eauto]].
  intros l x Hin Hx.
  apply in_listeners_for in Hin as [e Hin].
  rewrite List.Forall_forall in Hall. specialize (Hall _ Hin). simpl in Hall.
  destruct l as [target e'|target|targets];
    cbn [run_listener emits_on] in *.
  - apply List.Forall_inv in Hall.
    destruct (IH fuel target e' a x) as [x' Hx'];
      [now apply (nesting_le_wiring n w)|lia|].
    exists x'. split; [exact Hx'|].
    now rewrite (emit_wiring _ _ _ _ _ _ Hx').
  - apply List.Forall_inv in Hall.
    destruct (IH fuel target "error" [List.hd VUndefined a] x) as [x' Hx'];
      [now apply (nesting_le_wiring n w)|lia|].
    exists x'. split; [exact Hx'|].
    now rewrite (emit_wiring _ _ _ _ _ _ Hx').
  - eexists. split; [reflexivity|]. now rewrite wiring_destroy_all.
Qed.

Lemma only_touches_refl (E D : handle -> Prop) (w : world) :
  only_touches E D w w.
Proof. repeat split. Qed.

Lemma only_touches_trans (E D : handle -> Prop) (w1 w2 w3 : world) :
  only_touches E D w1 w2 -> only_touches E D w2 w3 -> only_touches E D w1 w3.
Proof.
  intros (H1 & H2 & H3) (H1' & H2' & H3'). repeat split; intros i.
  - intros HE HD. now rewrite H1', H1.
  - intros HE. now rewrite H2', H2.
  - intros HD. now rewrite H3', H3.
Qed.

Lemma only_touches_record (E D : handle -> Prop) (event : string)
    (a : list value) (h : nat) (w : world) :
  E h -> only_touches E D w (alter (record_event event a) h w).
Proof.
  intros HE. unfold only_touches, emitted_on, destroy_calls_on, handle in *.
  repeat split; intros i.
  - intros Hi _. apply list_lookup_alter_ne. now intros ->.
  - intros Hi. rewrite list_lookup_alter_ne; [reflexivity|now intros ->].
  - intros _. destruct (decide (h = i)) as [->|Hne].
    + rewrite list_lookup_alter_eq. destruct (w !! i); reflexivity.
    + now rewrite list_lookup_alter_ne.
Qed.

Lemma only_touches_destroy (E D : handle -> Prop) (t : nat) (w : world) :
  D t -> only_touches E D w (destroy t w).
Proof.
  intros HD.
  unfold only_touches, destroy, emitted_on, destroy_calls_on, handle in *.
  repeat split; intros i.
  - intros _ Hi. apply list_lookup_alter_ne. now intros ->.
  - intros _. destruct (decide (t = i)) as [->|Hne].
    + rewrite list_lookup_alter_eq. destruct (w !! i); reflexivity.
    + now rewrite list_lookup_alter_ne.
  - intros Hi. rewrite list_lookup_alter_ne; [reflexivity|now intros ->].
Qed.

Lemma only_touches_destroy_all (E D : handle -> Prop)
    (targets : list handle) (w : world) :
  List.Forall D targets ->
  only_touches E D w (foldl (fun w' t => destroy t w') w targets).
Proof.
  intros Hall. revert w.
  induction Hall as [|t targets Ht _ IH]; intros w;
    [apply only_touches_refl|].
  cbn [foldl]. eapply only_touches_trans; [|apply IH].
  now apply only_touches_destroy.
Qed.

Lemma confined_wiring (E D : handle -> Prop) (w w' : world) :
  wiring <$> w' = wiring <$> w -> confined E D w -> confined E D w'.
Proof.
  intros Hw Hc h s' HE Hs'.
  destruct (wiring_lookup w' w h s' (eq_sym Hw) Hs') as (s & Hs & Heq).
  rewrite <- (wiring_listeners _ _ Heq). exact (Hc h s HE Hs).
Qed.

(** An event raised inside a confined set of stages stays there. *)
Lemma emit_confined (E D : handle -> Prop) (fuel : nat) (h : handle)
    (event : string) (a : list value) (w w' : world) :
  confined E D w -> E h ->
  emit fuel h event a w = Some w' -> only_touches E D w w'.
Proof.
  revert h event a w w'.
  induction fuel as [|fuel IH]; intros h event a w w' Hc HE H;
    [discriminate H|].
  cbn [emit] in H. destruct (w !! h) as [s|] eqn:Hs; [|discriminate H].
  assert (HP : wiring <$> w' = wiring <$> w /\ only_touches E D w w');
    [|exact (proj2 HP)].
  revert H.
  apply (run_all_inv
           (fun x => wiring <$> x = wiring <$> w /\ only_touches E D w x)).
  - intros l x x' Hin [Hx Hto] Hl.
    apply in_listeners_for in Hin as [e Hin].
    pose proof (Hc h s HE Hs) as Hall.
    rewrite List.Forall_forall in Hall.
    destruct (Hall _ Hin) as [Hemits Hdestroys]. simpl in Hemits, Hdestroys.
    assert (Hcx : confined E D x) by now apply (confined_wiring E D w).
    destruct l as [target e'|target|targets];
      cbn [run_listener emits_on destroys] in *.
    + apply List.Forall_inv in Hemits. split.
      * rewrite <- Hx. exact (emit_wiring _ _ _ _ _ _ Hl).
      * eapply only_touches_trans; [exact Hto|].
        exact (IH _ _ _ _ _ Hcx Hemits Hl).
    + apply List.Forall_inv in Hemits. split.
      * rewrite <- Hx. exact (emit_wiring _ _ _ _ _ _ Hl).
      * eapply only_touches_trans; [exact Hto|].
        exact (IH _ _ _ _ _ Hcx Hemits Hl).
    + injection Hl as <-. split.
      * now rewrite wiring_destroy_all.
      * eapply only_touches_trans; [exact Hto|].
        now apply only_touches_destroy_all.
  - split; [now apply wiring_alter|].
    now apply only_touches_record.
Qed.

(** Events raised one after the other on stages of a confined set whose
    emitters nest at most [n] deep are all delivered with fuel [n]; the
    wiring stays, and nothing outside the set is touched. *)
Lemma emit_trace_confined (E D : handle -> Prop) (n fuel : nat)
    (trace : list (handle * string * list value)) (w : world) :
  confined E D w ->
  n <= fuel ->
  List.Forall (fun x => E (raised_on x) /\ nesting_le n w (raised_on x))
    trace ->
  exists w2, emit_trace fuel trace w = Some w2
             /\ wiring <$> w2 = wiring <$> w
             /\ only_touches E D w w2.
Proof.
  intros Hc Hle Hall. revert w Hc Hall.
  induction trace as [|[[h event] a] trace IH]; intros w Hc Hall.
  - exists w. repeat split.
  - apply List.Forall_cons_iff in Hall as [[HE Hn] Hall].
    unfold raised_on in HE, Hn. simpl in HE, Hn.
    destruct (emit_terminates n fuel h event a w Hn Hle) as [w1 Hw1].
    pose proof (emit_wiring _ _ _ _ _ _ Hw1) as Hwiring.
    pose proof (emit_confined E D _ _ _ _ _ _ Hc HE Hw1) as Hto.
    destruct (IH w1) as (w2 & Hw2 & Hwiring2 & Hto2).
    + now apply (confined_wiring E D w).
    + eapply List.Forall_impl; [|exact Hall].
      intros x [Hx Hnx]. split; [exact Hx|].
      now apply (nesting_le_wiring n w).
    + exists w2. cbn [emit_trace]. rewrite Hw1. cbn [mbind option_bind].
      split; [exact Hw2|]. split; [now rewrite Hwiring2|].
      now apply (only_touches_trans E D w w1 w2).
Qed.

Lemma take_unchanged (W stages w2 : world) :
  (forall i : nat, i < length W -> w2 !! i = (W ++ stages) !! i) ->
  take (length W) w2 = W.
Proof.
  intros H. apply list_eq. intros i.
  destruct (decide (i < length W)) as [Hi|Hi].
  - rewrite lookup_take_lt by assumption. rewrite H by assumption.
    now apply lookup_app_l.
  - rewrite lookup_take_ge by lia. symmetry. apply lookup_ge_None. lia.
Qed.

(** Events on stages appended to a heap [W], when their listeners stay
    among them and destroy only transcoders and encoders among them. *)
Lemma chain_events (W stages : world) (n fuel : nat)
    (trace : list (handle * string * list value)) :
  confined (fun h => length W <= h)
    (fun h => length W <= h
              /\ exists k, kind_of (W ++ stages) h = Some k
                           /\ is_transcode_or_encode k = true)
    (W ++ stages) ->
  (forall j, j < length stages -> nesting_le n (W ++ stages) (length W + j)) ->
  n <= fuel ->
  List.Forall (fun x => length W <= raised_on x < length (W ++ stages)) trace ->
  exists w2,
    emit_trace fuel trace (W ++ stages) = Some w2
    /\ wiring <$> w2 = wiring <$> (W ++ stages)
    /\ take (length W) w2 = W
    /\ forall (x : handle) k,
         kind_of (W ++ stages) x = Some k ->
         is_transcode_or_encode k = false ->
         destroy_calls_on w2 x = destroy_calls_on (W ++ stages) x.
Proof.
  intros Hc Hn Hle Htrace.
  destruct (emit_trace_confined _ _ n fuel trace (W ++ stages) Hc Hle)
    as (w2 & Hrun & Hwiring & Hsame & _ & Hdestroy).
  - eapply List.Forall_impl; [|exact Htrace].
    intros x [Hlo Hhi]. split; [exact Hlo|].
    apply above_boundary in Hlo as [j Hj]. rewrite Hj. apply Hn.
    rewrite length_app in Hhi. lia.
  - exists w2. split; [exact Hrun|]. split; [exact Hwiring|]. split.
    + apply (take_unchanged W stages). intros i Hi.
      apply Hsame; [lia|]. intros [Hge _]. lia.
    + intros x k Hk Hte. apply Hdestroy.
      intros (_ & k' & Hk' & Hte'). rewrite Hk in Hk'.
      injection Hk' as <-. rewrite Hte in Hte'. discriminate Hte'.
Qed.

Ltac chain_listeners :=
  repeat match goal with
         | |- List.Forall _ [] => apply List.Forall_nil
         | |- List.Forall _ (_ :: _) => apply List.Forall_cons
         | |- _ /\ _ => split
         | |- _ <= _ => lia
         | |- exists k, kind_of _ _ = Some k /\ _ =>
             eexists; split;
             [unfold kind_of; rewrite ?lookup_new, ?lookup_new0; reflexivity
             |reflexivity]
         | |- exists s, _ !! _ = Some s /\ _ =>
             eexists; split; [rewrite ?lookup_new, ?lookup_new0; reflexivity|]
         | |- _ => progress (cbn [nesting_le emits_on destroys snd listeners])
         end.

Ltac chain_confined :=
  let h := fresh "h" in
  let s := fresh "s" in
  let j := fresh "j" in
  let HE := fresh "HE" in
  let Hs := fresh "Hs" in
  intros h s HE Hs;
  apply above_boundary in HE as [j ->];
  rewrite lookup_new in Hs;
  destruct j as [|[|[|j]]]; simpl in Hs; try discriminate Hs;
  injection Hs as <-;
  unfold relay_listeners, evn; simpl; chain_listeners.

Ltac chain_nesting :=
  let j := fresh "j" in
  let Hj := fresh "Hj" in
  intros j Hj; simpl in Hj;
  destruct j as [|[|[|j]]]; try lia;
  unfold relay_listeners, evn; simpl; chain_listeners.

(** X7. After [StreamDownloader] has returned, events raised in any order
    on the stages it allocated are all delivered, with emitters nested at
    most two deep.  Delivering them changes no listener and no pipe,
    touches no stage that existed before the call, and invokes [destroy] on
    nothing but transcoders and encoders: the remote source is never
    destroyed. *)
Theorem StreamDownloader_events_stay_in_chain (url : value)
    (options : option StreamOptions) (w0 w1 : world) (out : handle)
    (trace : list (handle * string * list value)) (fuel : nat) :
  StreamDownloader url options w0 = (Return out, w1) ->
  2 <= fuel ->
  List.Forall (fun x => length w0 <= raised_on x < length w1) trace ->
  exists w2,
    emit_trace fuel trace w1 = Some w2
    /\ wiring <$> w2 = wiring <$> w1
    /\ take (length w0) w2 = w0
    /\ forall (x : handle) k,
         kind_of w1 x = Some k ->
         is_transcode_or_encode k = false ->
         destroy_calls_on w2 x = destroy_calls_on w1 x.
Proof.
  intros H Hfuel Htrace.
  destruct (StreamDownloader_returns_inv _ _ _ _ _ H) as (s & -> & Hs).
  destruct (truthy (opusEncoded (nullish_default options))) eqn:Hopus;
    [rewrite StreamDownloader_opus in H by assumption
    |rewrite StreamDownloader_plain in H by assumption];
    injection H as <- <-;
    apply (chain_events _ _ 2); try assumption;
    [chain_confined|chain_nesting|chain_confined|chain_nesting].
Qed.

(** X8. After [arbitraryStream] has returned, events raised in any order
    on the stages it allocated are all delivered, and no listener emits in
    turn.  Delivering them changes no listener and no pipe, touches no
    stage that existed before the call, the stream passed in among them,
    and invokes [destroy] on nothing but transcoders and encoders: a
    readable made from a buffer is never destroyed. *)
Theorem arbitraryStream_events_stay_in_chain (stream : value)
    (options : option StreamOptions) (w0 w1 : world) (out : handle)
    (trace : list (handle * string * list value)) (fuel : nat) :
  live w0 stream ->
  arbitraryStream stream options w0 = (Return out, w1) ->
  1 <= fuel ->
  List.Forall (fun x => length w0 <= raised_on x < length w1) trace ->
  exists w2,
    emit_trace fuel trace w1 = Some w2
    /\ wiring <$> w2 = wiring <$> w1
    /\ take (length w0) w2 = take (length w0) w1
    /\ forall (x : handle) k,
         kind_of w1 x = Some k ->
         is_transcode_or_encode k = false ->
         destroy_calls_on w2 x = destroy_calls_on w1 x.
Proof.
  intros Hlive H Hfuel Htrace.
  destruct (arbitraryStream_returns_inv _ _ _ _ _ H)
    as [(s & -> & Hs)|[(bytes & ->)|(h & ->)]];
    destruct (truthy (opusEncoded (nullish_default options))) eqn:Hopus;
    [rewrite arbitraryStream_string_opus in H by assumption
    |rewrite arbitraryStream_string_plain in H by assumption
    |rewrite arbitraryStream_buffer_opus in H by assumption
    |rewrite arbitraryStream_buffer_plain in H by assumption
    |rewrite arbitraryStream_stream_opus in H by assumption
    |rewrite arbitraryStream_stream_plain in H by assumption];
    injection H as <- <-; revert Htrace;
    try (pose proof (length_wired_input h (length w0) w0) as HW; revert HW;
         generalize (wired_input h (length w0) w0) as W; intros W HW;
         rewrite <- HW);
    intros Htrace;
    rewrite (take_app_length _ _);
    apply (chain_events _ _ 1); try assumption;
    solve [chain_confined | chain_nesting].
Qed.

(** ** Errors, one event after the other *)





Lemma relayed_errors_cons (x : string * list value)
    (events : list (string * list value)) :
  relayed_errors (x :: events) = relayed_errors [x] ++ relayed_errors events.
Proof.
  unfold relayed_errors. simpl. now destruct (String.eqb (fst x) "error").
Qed.

Lemma emit_opus_chain_transcoder (w : world) (args : list string)
    (source : stage_kind)
    (seen_t seen_s seen_o : list (string * list value)) (fuel : nat)
    (event : string) (a : list value) :
  emit (S (S fuel)) (length w) event a
    (opus_chain w args source seen_t seen_s seen_o)
  = Some (opus_chain w args source (seen_t ++ [(event, a)]) seen_s
            (seen_o ++ relayed_errors [(event, a)])).
Proof.
  unfold opus_chain, relayed_errors.
  cbn [emit]. heap_norm. unfold listeners_for. simpl.
  destruct (String.eqb_spec event "error") as [->|Hne]; simpl;
    heap_norm; rewrite ?app_nil_r; reflexivity.
Qed.

Lemma emit_all_opus_chain_transcoder (w : world) (args : list string)
    (source : stage_kind) (fuel : nat)
    (events seen_t seen_s seen_o : list (string * list value)) :
  emit_all (S (S fuel)) (length w) events
    (opus_chain w args source seen_t seen_s seen_o)
  = Some (opus_chain w args source (seen_t ++ events) seen_s
            (seen_o ++ relayed_errors events)).
Proof.
  revert seen_t seen_o.
  induction events as [|[event a] events IH]; intros seen_t seen_o.
  - cbn [emit_all]. unfold relayed_errors. simpl. now rewrite !app_nil_r.
  - cbn [emit_all]. rewrite emit_opus_chain_transcoder.
    cbn [mbind option_bind]. rewrite IH.
    rewrite (relayed_errors_cons (event, a) events).
    rewrite <- !app_assoc. reflexivity.
Qed.

(** X10. With Opus, of the events raised on the transcoder of
    [StreamDownloader] the returned encoder sees the errors and nothing
    else, each with its first argument only; nothing is destroyed. *)
Theorem transcoder_errors_reach_encoder (url : value)
    (options : option StreamOptions) (w0 w1 : world) (out : handle)
    (events : list (string * list value)) (fuel : nat) :
  StreamDownloader url options w0 = (Return out, w1) ->
  truthy (opusEncoded (nullish_default options)) = true ->
  2 <= fuel ->
  exists w2,
    emit_all fuel (length w0) events w1 = Some w2
    /\ emitted_on w2 (length w0) = events
    /\ emitted_on w2 out = relayed_errors events
    /\ forall h, length w0 <= h -> destroy_calls_on w2 h = 0.
Proof.
  intros H Hopus Hfuel.
  destruct (StreamDownloader_returns_inv _ _ _ _ _ H) as (s & -> & Hs).
  rewrite StreamDownloader_opus_chain in H by assumption.
  injection H as <- <-.
  destruct fuel as [|[|fuel]]; try lia.
  rewrite emit_all_opus_chain_transcoder. eexists. split; [reflexivity|].
  unfold emitted_on, destroy_calls_on, opus_chain.
  rewrite lookup_new, lookup_new0. simpl. repeat split.
  intros h Hh. apply above_boundary in Hh as [j ->]. rewrite lookup_new.
  now destruct j as [|[|[|j]]].
Qed.

Lemma arbitraryStream_buffer_chain (bytes : list Byte.byte)
    (options : option StreamOptions) (w0 : world) :
  let o := nullish_default options in
  arbitraryStream (VBuffer bytes) options w0
  = (Return (length w0 + if truthy (opusEncoded o) then 2 else 0),
     buffer_chain w0 (arbitraryStream_FFmpegArgs (VBuffer bytes) o) bytes
       (truthy (opusEncoded o)) 0 []).
Proof.
  intros o. subst o. unfold buffer_chain.
  destruct (truthy (opusEncoded (nullish_default options))) eqn:Hopus.
  - now rewrite arbitraryStream_buffer_opus.
  - rewrite arbitraryStream_buffer_plain by assumption.
    now rewrite Nat.add_0_r.
Qed.

Lemma emit_buffer_chain (w : world) (args : list string)
    (bytes : list Byte.byte) (opus : bool) (destroyed_t fuel : nat)
    (seen_r : list (string * list value)) (event : string) (a : list value) :
  emit (S fuel) (length w + 1) event a
    (buffer_chain w args bytes opus destroyed_t seen_r)
  = Some (buffer_chain w args bytes opus
            (destroyed_t + count_errors [(event, a)])
            (seen_r ++ [(event, a)])).
Proof.
  unfold buffer_chain, count_errors.
  destruct opus; cbn [emit]; heap_norm; unfold listeners_for; simpl;
    destruct (String.eqb_spec event "error") as [->|Hne]; simpl;
    unfold destroy; heap_norm;
    rewrite ?Nat.add_0_r, ?Nat.add_1_r; reflexivity.
Qed.

Lemma emit_all_buffer_chain (w : world) (args : list string)
    (bytes : list Byte.byte) (opus : bool) (fuel : nat)
    (events seen_r : list (string * list value)) (destroyed_t : nat) :
  emit_all (S fuel) (length w + 1) events
    (buffer_chain w args bytes opus destroyed_t seen_r)
  = Some (buffer_chain w args bytes opus
            (destroyed_t + count_errors events) (seen_r ++ events)).
Proof.
  revert seen_r destroyed_t.
  induction events as [|[event a] events IH]; intros seen_r destroyed_t.
  - cbn [emit_all]. unfold count_errors. simpl.
    now rewrite app_nil_r, Nat.add_0_r.
  - cbn [emit_all]. rewrite emit_buffer_chain. cbn [mbind option_bind].
    rewrite IH. rewrite (count_errors_cons (event, a) events).
    rewrite <- app_assoc, Nat.add_assoc. reflexivity.
Qed.

(** X11. Whatever the readable that [arbitraryStream] makes from a
    [Buffer] raises, with or without Opus: the returned stream sees none
    of it, errors included, and the transcoder's [destroy] is invoked once
    for each error and for no other event. *)
Theorem buffer_events_are_not_relayed (bytes : list Byte.byte)
    (options : option StreamOptions) (w0 : world)
    (events : list (string * list value)) (fuel : nat) :
  1 <= fuel ->
  exists out w1 w2,
    arbitraryStream (VBuffer bytes) options w0 = (Return out, w1)
    /\ kind_of w1 (length w0 + 1) = Some (ReadableFrom bytes)
    /\ emit_all fuel (length w0 + 1) events w1 = Some w2
    /\ emitted_on w2 (length w0 + 1) = events
    /\ emitted_on w2 out = []
    /\ destroy_calls_on w2 (length w0) = count_errors events.
Proof.
  intros Hfuel. destruct fuel as [|fuel]; [lia|].
  rewrite arbitraryStream_buffer_chain.
  destruct (truthy (opusEncoded (nullish_default options)));
    do 3 eexists; (split; [reflexivity|]);
    rewrite emit_all_buffer_chain;
    unfold kind_of, emitted_on, destroy_calls_on, buffer_chain;
    rewrite ?lookup_new, ?lookup_new0, ?Nat.add_0_r, ?lookup_new0;
    repeat split; reflexivity.
Qed.

Lemma alter_insert_eq {A} (f : A -> A) (l : list A) (i : nat) (x : A) :
  alter f i (<[i:=x]> l) = <[i:=f x]> l.
Proof.
  rewrite !list_insert_alter, list_alter_alter_eq. reflexivity.
Qed.

Lemma wired_input_fresh (w0 : world) (h : nat) (t : handle) (s0 : stage) :
  w0 !! h = Some s0 ->
  listeners s0 = [] ->
  wired_input h t w0
  = <[h := mkStage (kind s0) [("error", DestroyAll [t])] (pipes s0 ++ [t])
             (emitted s0) (destroy_calls s0)]> w0.
Proof.
  intros Hs Hl. unfold wired_input.
  rewrite list_alter_alter_eq, list_insert_alter.
  apply list_alter_ext; [|reflexivity].
  intros s Hs'. rewrite Hs in Hs'. injection Hs' as <-.
  unfold add_listener, add_pipe. simpl. now rewrite Hl.
Qed.

Lemma arbitraryStream_stream_chain (h : nat) (s0 : stage)
    (options : option StreamOptions) (w0 : world) :
  w0 !! h = Some s0 ->
  listeners s0 = [] ->
  let o := nullish_default options in
  arbitraryStream (VStream h) options w0
  = (Return (length w0 + if truthy (opusEncoded o) then 1 else 0),
     stream_chain w0 h s0 (arbitraryStream_FFmpegArgs (VStream h) o)
       (truthy (opusEncoded o)) 0 (emitted s0)).
Proof.
  intros Hs Hl o. subst o. unfold stream_chain. cbv zeta.
  pose proof (lookup_lt_Some _ _ _ Hs) as Hh.
  pose proof (wired_input_fresh w0 h (length w0) s0 Hs Hl) as Hwired.
  unfold handle in *. rewrite <- Hwired.
  destruct (truthy (opusEncoded (nullish_default options))) eqn:Hopus.
  - now rewrite arbitraryStream_stream_opus.
  - rewrite arbitraryStream_stream_plain by assumption.
    now rewrite Nat.add_0_r.
Qed.

Lemma emit_stream_chain (w : world) (h : nat) (s0 : stage)
    (args : list string) (opus : bool) (destroyed_t fuel : nat)
    (seen_h : list (string * list value)) (event : string) (a : list value) :
  h < length w ->
  emit (S fuel) h event a (stream_chain w h s0 args opus destroyed_t seen_h)
  = Some (stream_chain w h s0 args opus
            (destroyed_t + count_errors [(event, a)])
            (seen_h ++ [(event, a)])).
Proof.
  intros Hh. unfold stream_chain, count_errors. cbn [emit].
  rewrite lookup_app_l by (rewrite length_insert; lia).
  rewrite list_lookup_insert_eq by lia.
  rewrite alter_app_l by (rewrite length_insert; lia).
  rewrite alter_insert_eq.
  unfold listeners_for. simpl.
  destruct (String.eqb_spec event "error") as [->|Hne]; simpl;
    unfold destroy;
    rewrite ?(alter_new_at0 _ _ _ (length w)) by apply length_insert;
    destruct opus; simpl;
    rewrite ?Nat.add_0_r, ?Nat.add_1_r; reflexivity.
Qed.

Lemma emit_all_stream_chain (w : world) (h : nat) (s0 : stage)
    (args : list string) (opus : bool) (fuel : nat)
    (events seen_h : list (string * list value)) (destroyed_t : nat) :
  h < length w ->
  emit_all (S fuel) h events
    (stream_chain w h s0 args opus destroyed_t seen_h)
  = Some (stream_chain w h s0 args opus
            (destroyed_t + count_errors events) (seen_h ++ events)).
Proof.
  intros Hh. revert seen_h destroyed_t.
  induction events as [|[event a] events IH]; intros seen_h destroyed_t.
  - cbn [emit_all]. unfold count_errors. simpl.
    now rewrite app_nil_r, Nat.add_0_r.
  - cbn [emit_all]. rewrite emit_stream_chain by assumption.
    cbn [mbind option_bind].
    rewrite IH. rewrite (count_errors_cons (event, a) events).
    rewrite <- app_assoc, Nat.add_assoc. reflexivity.
Qed.

(** X12. The same for a stream passed to [arbitraryStream] on which
    nothing was listening: whatever it raises, the returned stream sees
    none of it, and the transcoder's [destroy] is invoked once for each
    error and for no other event. *)
Theorem stream_events_are_not_relayed (h : handle) (s0 : stage)
    (options : option StreamOptions) (w0 : world)
    (events : list (string * list value)) (fuel : nat) :
  w0 !! h = Some s0 ->
  listeners s0 = [] ->
  1 <= fuel ->
  exists out w1 w2,
    arbitraryStream (VStream h) options w0 = (Return out, w1)
    /\ length w0 <= out
    /\ emit_all fuel h events w1 = Some w2
    /\ emitted_on w2 h = emitted s0 ++ events
    /\ emitted_on w2 out = []
    /\ destroy_calls_on w2 (length w0) = count_errors events.
Proof.
  intros Hs Hl Hfuel. destruct fuel as [|fuel]; [lia|].
  pose proof (lookup_lt_Some _ _ _ Hs) as Hh.
  rewrite (arbitraryStream_stream_chain h s0) by assumption.
  destruct (truthy (opusEncoded (nullish_default options)));
    do 3 eexists; (split; [reflexivity|]); (split; [lia|]);
    rewrite emit_all_stream_chain by assumption;
    (split; [reflexivity|]);
    unfold emitted_on, destroy_calls_on, stream_chain;
    rewrite lookup_app_l by (rewrite length_insert; lia);
    rewrite list_lookup_insert_eq by lia;
    rewrite ?Nat.add_0_r;
    rewrite ?(lookup_app_r _ _ (length w0))
      by (rewrite length_insert; lia);
    rewrite ?(lookup_app_r _ _ (length w0 + 1))
      by (rewrite length_insert; lia);
    rewrite ?length_insert, ?Nat.sub_diag;
    replace (length w0 + 1 - length w0) with 1 by lia;
    repeat split; reflexivity.
Qed.

End Pipeline.

(** ** Instances

    The statements above hold for every rendering of numbers; the ones
    below run the entry points with [toString_integral]. *)

Lemma seek_args_at_head_witness :
  let o := {| seek := Some (S754_finite false 5 0); encoderArgs := VUndefined;
              fmt := VUndefined; opusEncoded := VBool true |} in
  seek o = Some (S754_finite false 5 0)
  /\ Number_isNaN (S754_finite false 5 0) = false
  /\ StreamDownloader_FFmpegArgs toString_integral o
     = ["-ss"; "5"; "-analyzeduration"; "0"; "-loglevel"; "0"; "-f"; "s16le";
        "-ar"; "48000"; "-ac"; "2"]
  /\ arbitraryStream_FFmpegArgs toString_integral
       (VString "https://stream/kpop") o
     = ["-ss"; "5"; "-reconnect"; "1"; "-reconnect_streamed"; "1";
        "-reconnect_delay_max"; "5"; "-i"; "https://stream/kpop";
        "-analyzeduration"; "0"; "-loglevel"; "0"; "-f"; "s16le"; "-ar";
        "48000"; "-ac"; "2"].
Proof.
  intros o.
  destruct (seek_args_at_head toString_integral o (S754_finite false 5 0)
              eq_refl eq_refl) as [Hsource Harbitrary].
  split; [reflexivity|]. split; [reflexivity|]. split.
  - exact Hsource.
  - exact (Harbitrary (VString "https://stream/kpop")).
Defined.

Lemma non_list_encoderArgs_ignored_witness :
  let o := {| seek := Some (S754_finite false 3 0); encoderArgs := VUndefined;
              fmt := VString "mp3"; opusEncoded := VUndefined |} in
  Array_isArray (VString "-af bass=g=10") = false
  /\ StreamDownloader_FFmpegArgs toString_integral
       (set_encoderArgs (VString "-af bass=g=10") o)
     = ["-ss"; "3"; "-analyzeduration"; "0"; "-loglevel"; "0"; "-f"; "mp3";
        "-ar"; "48000"; "-ac"; "2"]
  /\ arbitraryStream_FFmpegArgs toString_integral (VBuffer [])
       (set_encoderArgs (VString "-af bass=g=10") o)
     = ["-ss"; "3"; "-analyzeduration"; "0"; "-loglevel"; "0"; "-f"; "mp3";
        "-ar"; "48000"; "-ac"; "2"; "-i"; "-"].
Proof.
  intros o.
  destruct (non_list_encoderArgs_ignored toString_integral o
              (VString "-af bass=g=10") eq_refl) as [Hsource Harbitrary].
  split; [reflexivity|]. split.
  - exact Hsource.
  - exact (Harbitrary (VBuffer [])).
Defined.

Lemma StreamDownloader_validation_witness :
  (truthy VUndefined = false
   /\ StreamDownloader toString_integral VUndefined None []
      = (Throw (Error "No input url provided"), []))
  /\ (truthy (VNumber (S754_finite false 5 0)) = true
      /\ typeof (VNumber (S754_finite false 5 0)) <> "string"
      /\ StreamDownloader toString_integral (VNumber (S754_finite false 5 0))
           None []
         = (Throw (SyntaxError "input URL must be a string. Received number!"),
            []))
  /\ ("https://example/video" <> ""
      /\ exists out w',
           StreamDownloader toString_integral (VString "https://example/video")
             None [] = (Return out, w')).
Proof.
  assert (Hnum : typeof (VNumber (S754_finite false 5 0)) <> "string")
    by discriminate.
  assert (Hurl : "https://example/video" <> "") by discriminate.
  split; [|split].
  - split; [reflexivity|].
    exact (proj1 (StreamDownloader_validation toString_integral VUndefined
                    None []) eq_refl).
  - split; [reflexivity|]. split; [exact Hnum|].
    exact (proj1 (proj2 (StreamDownloader_validation toString_integral
                           (VNumber (S754_finite false 5 0)) None []))
             eq_refl Hnum).
  - split; [exact Hurl|].
    exact (proj2 (proj2 (StreamDownloader_validation toString_integral
                           (VString "https://example/video") None []))
             "https://example/video" eq_refl Hurl).
Defined.

(** C9, the claim as stated fails: the empty string is a string, and it is
    rejected at validation. *)
Lemma empty_string_url_throws :
  typeof (VString "") = "string"
  /\ StreamDownloader toString_integral (VString "") None []
     = (Throw (Error "No input url provided"), []).
Proof. split; reflexivity. Qed.

Lemma arbitraryStream_validation_witness :
  (truthy (VNumber S754_nan) = false
   /\ arbitraryStream toString_integral (VNumber S754_nan) None []
      = (Throw (Error "No stream source provided"), []))
  /\ (truthy (VBigInt 0) = false
      /\ arbitraryStream toString_integral (VBigInt 0) None []
         = (Throw (Error "No stream source provided"), [])).
Proof.
  split; (split; [reflexivity|]).
  - exact (proj1 (proj2 (arbitraryStream_validation toString_integral))
             (VNumber S754_nan) None [] eq_refl).
  - exact (proj1 (proj2 (arbitraryStream_validation toString_integral))
             (VBigInt 0) None [] eq_refl).
Defined.

(** C10, the claim as stated fails: [false] is none of [null], [undefined],
    [0] and the empty string, and it causes the validation error. *)
Lemma false_input_throws :
  arbitraryStream toString_integral (VBool false) None []
  = (Throw (Error "No stream source provided"), [])
  /\ VBool false <> VNull /\ VBool false <> VUndefined
  /\ (forall sign, VBool false <> VNumber (S754_zero sign))
  /\ VBool false <> VString "".
Proof. repeat split; try discriminate. Qed.

Lemma close_destroys_transcoder_and_encoder_witness :
  exists w1 w1',
    StreamDownloader toString_integral (VString "https://example/video")
      (Some {| seek := None; encoderArgs := VUndefined; fmt := VUndefined;
               opusEncoded := VBool true |}) [] = (Return 2, w1)
    /\ close_tears_down 0 2 w1
    /\ live [] (VBuffer [])
    /\ arbitraryStream toString_integral (VBuffer [])
         (Some {| seek := None; encoderArgs := VUndefined; fmt := VUndefined;
                  opusEncoded := VBool true |}) []
       = (Return 2, w1')
    /\ close_tears_down 0 2 w1'.
Proof.
  do 2 eexists.
  split; [lazy; reflexivity|]. split.
  - apply (proj1 (close_destroys_transcoder_and_encoder toString_integral
                    (Some {| seek := None; encoderArgs := VUndefined;
                             fmt := VUndefined; opusEncoded := VBool true |})
                    [] _ 2)
             (VString "https://example/video")).
    lazy. reflexivity.
  - split; [exact I|]. split; [lazy; reflexivity|].
    apply (proj2 (close_destroys_transcoder_and_encoder toString_integral
                    (Some {| seek := None; encoderArgs := VUndefined;
                             fmt := VUndefined; opusEncoded := VBool true |})
                    [] _ 2)
             (VBuffer []) I).
    lazy. reflexivity.
Defined.

Lemma StreamDownloader_relays_lifecycle_events_witness :
  exists w1 src w2,
    StreamDownloader toString_integral (VString "https://example/video")
      None [] = (Return 0, w1)
    /\ kind_of w1 src = Some (Ytdl (VString "https://example/video")
                                empty_options)
    /\ 2 <= 2
    /\ emit_all 2 src
         [("info", [VObject]); ("data", [VBuffer []]);
          ("progress", [VNumber (S754_finite false 1 10)]);
          ("error", [VString "reset"])] w1 = Some w2
    /\ emitted_on w2 0
       = [("info", [VObject]);
          ("progress", [VNumber (S754_finite false 1 10)]);
          ("error", [VString "reset"])].
Proof.
  assert (Hcall : StreamDownloader toString_integral
                    (VString "https://example/video") None []
                  = (Return 0,
                     plain_chain []
                       (StreamDownloader_FFmpegArgs toString_integral
                          empty_options)
                       (Ytdl (VString "https://example/video") empty_options)
                       [] 0 []))
    by reflexivity.
  destruct (StreamDownloader_relays_lifecycle_events toString_integral
              (VString "https://example/video") None [] _ 0 Hcall)
    as (src & _ & Hkind & Hrelay).
  destruct (Hrelay [("info", [VObject]); ("data", [VBuffer []]);
                    ("progress", [VNumber (S754_finite false 1 10)]);
                    ("error", [VString "reset"])] 2 (le_n 2))
    as (w2 & Hemit & _ & Hout & _).
  eexists. exists src, w2.
  split; [exact Hcall|]. split; [exact Hkind|]. split; [exact (le_n 2)|].
  split; [exact Hemit|]. exact Hout.
Defined.

(** C1, the claim as stated fails for [arbitraryStream]: an [info] raised
    on the stream passed in is seen there and not on the returned stream. *)
Lemma arbitraryStream_relays_nothing :
  exists w1 w2,
    arbitraryStream toString_integral (VStream 0) None [fresh CallerStream]
    = (Return 1, w1)
    /\ In "info" evn
    /\ emit 2 0 "info" [VString "metadata"] w1 = Some w2
    /\ emitted_on w2 0 = [("info", [VString "metadata"])]
    /\ emitted_on w2 1 = [].
Proof.
  do 2 eexists. split; [lazy; reflexivity|]. split; [now left|].
  split; [lazy; reflexivity|]. split; lazy; reflexivity.
Qed.

(** C7, the claim as stated fails: [encoderArgs] is appended as given, so
    a reconnect flag in it reaches the list built for a [Buffer]. *)
Lemma buffer_args_may_carry_reconnect :
  exists w1 args,
    arbitraryStream toString_integral (VBuffer [])
      (Some {| seek := None; encoderArgs := VArray ["-reconnect"; "1"];
               fmt := VUndefined; opusEncoded := VUndefined |}) []
    = (Return 0, w1)
    /\ kind_of w1 0 = Some (FFmpeg args)
    /\ In "-reconnect" reconnect_flags
    /\ In "-reconnect" args.
Proof.
  do 2 eexists. split; [lazy; reflexivity|]. split; [lazy; reflexivity|].
  split; [now left|]. simpl. tauto.
Qed.

(** C2, where the code departs from it: with [opusEncoded] set,
    [StreamDownloader] relays an error of the remote source to the encoder
    it returned, and the transcoder's [destroy] is not invoked. *)
Theorem opus_source_error_leaves_transcoder :
  exists w1,
    StreamDownloader toString_integral (VString "https://example/video")
      (Some {| seek := None; encoderArgs := VUndefined; fmt := VUndefined;
               opusEncoded := VBool true |}) [] = (Return 2, w1)
    /\ kind_of w1 0
       = Some (FFmpeg ["-analyzeduration"; "0"; "-loglevel"; "0"; "-f";
                       "s16le"; "-ar"; "48000"; "-ac"; "2"])
    /\ (exists o, kind_of w1 1 = Some (Ytdl (VString "https://example/video") o))
    /\ forall fuel, exists w2,
         emit (2 + fuel) 1 "error" [VString "network failure"] w1 = Some w2
         /\ emitted_on w2 2 = [("error", [VString "network failure"])]
         /\ destroy_calls_on w2 0 = 0.
Proof.
  eexists. split; [lazy; reflexivity|]. split; [lazy; reflexivity|].
  split; [eexists; lazy; reflexivity|]. intros fuel.
  pose proof (emit_opus_chain [] 
                ["-analyzeduration"; "0"; "-loglevel"; "0"; "-f";
                 "s16le"; "-ar"; "48000"; "-ac"; "2"]
                (Ytdl (VString "https://example/video")
                   {| seek := None; encoderArgs := VUndefined;
                      fmt := VUndefined; opusEncoded := VBool true |})
                [] [] [] fuel "error" [VString "network failure"]) as Hemit.
  eexists. split; [exact Hemit|]. split; lazy; reflexivity.
Qed.

(** C3, where the code departs from it: with [opusEncoded] set,
    [arbitraryStream] registers nothing on the transcoder, and an error
    raised there never reaches the encoder it returned. *)
Theorem arbitraryStream_drops_transcoder_error :
  exists w1,
    arbitraryStream toString_integral (VString "https://stream/kpop")
      (Some {| seek := None; encoderArgs := VUndefined; fmt := VUndefined;
               opusEncoded := VBool true |}) [] = (Return 1, w1)
    /\ (exists args, kind_of w1 0 = Some (FFmpeg args))
    /\ kind_of w1 1 = Some (OpusEncoder 48000 2 960)
    /\ forall fuel, exists w2,
         emit (1 + fuel) 0 "error" [VString "ffmpeg exited"] w1 = Some w2
         /\ emitted_on w2 0 = [("error", [VString "ffmpeg exited"])]
         /\ emitted_on w2 1 = [].
Proof.
  eexists. split; [lazy; reflexivity|]. split; [eexists; lazy; reflexivity|].
  split; [lazy; reflexivity|]. intros fuel.
  eexists. split; [lazy; reflexivity|]. split; lazy; reflexivity.
Qed.

Lemma non_string_fmt_is_s16le_witness :
  typeof (VNumber (S754_finite false 3 0)) <> "string"
  /\ StreamDownloader_FFmpegArgs toString_integral
       (set_fmt (VNumber (S754_finite false 3 0)) empty_options)
     = ["-analyzeduration"; "0"; "-loglevel"; "0"; "-f"; "s16le"; "-ar";
        "48000"; "-ac"; "2"].
Proof.
  assert (Hty : typeof (VNumber (S754_finite false 3 0)) <> "string")
    by discriminate.
  split; [exact Hty|].
  exact (proj1 (non_string_fmt_is_s16le toString_integral empty_options
                  (VNumber (S754_finite false 3 0)) Hty)).
Defined.

Lemma NaN_seek_is_ignored_witness :
  let o := {| seek := Some S754_nan; encoderArgs := VArray ["-af"; "bass=g=10"];
              fmt := VUndefined; opusEncoded := VUndefined |} in
  isNaN (seek o) = true
  /\ StreamDownloader_FFmpegArgs toString_integral o
     = ["-analyzeduration"; "0"; "-loglevel"; "0"; "-f"; "s16le"; "-ar";
        "48000"; "-ac"; "2"; "-af"; "bass=g=10"].
Proof.
  intros o. split; [reflexivity|].
  exact (proj1 (NaN_seek_is_ignored toString_integral o eq_refl)).
Defined.

Lemma arbitraryStream_unpipeable_input_witness :
  truthy (VBool true) = true
  /\ typeof (VBool true) <> "string"
  /\ instanceof_Buffer (VBool true) = false
  /\ arbitraryStream toString_integral (VBool true) None []
     = (Throw (TypeError "stream.pipe is not a function"),
        [fresh (FFmpeg ["-analyzeduration"; "0"; "-loglevel"; "0"; "-f";
                        "s16le"; "-ar"; "48000"; "-ac"; "2"])]).
Proof.
  assert (Hty : typeof (VBool true) <> "string") by discriminate.
  assert (Hstream : forall h, VBool true <> VStream h) by discriminate.
  split; [reflexivity|]. split; [exact Hty|]. split; [reflexivity|].
  exact (arbitraryStream_unpipeable_input toString_integral (VBool true)
           None [] eq_refl Hty eq_refl Hstream).
Defined.

Lemma StreamDownloader_pipeline_witness :
  let call :=
    StreamDownloader toString_integral (VString "https://example/video")
      (Some {| seek := None; encoderArgs := VUndefined; fmt := VUndefined;
               opusEncoded := VString "yes" |}) [] in
  call = (Return 2, snd call)
  /\ kind_of (snd call) 2 = Some (OpusEncoder 48000 2 960)
  /\ pipes_of (snd call) 1 = [0]
  /\ pipes_of (snd call) 0 = [2]
  /\ length (snd call) = 3.
Proof.
  intros call.
  assert (Hcall : call = (Return 2, snd call)) by (lazy; reflexivity).
  destruct (StreamDownloader_pipeline toString_integral _ _ _ _ _ Hcall)
    as (_ & _ & _ & Hsource & Hlen & _ & Hkind & Hpipe & _).
  split; [exact Hcall|]. split; [exact Hkind|]. split; [exact Hsource|].
  split; [exact Hpipe|exact Hlen].
Defined.

Lemma arbitraryStream_pipeline_witness :
  let call :=
    arbitraryStream toString_integral (VStream 0) None [fresh CallerStream] in
  live [fresh CallerStream] (VStream 0)
  /\ call = (Return 1, snd call)
  /\ kind_of (snd call) 1
     = Some (FFmpeg ["-analyzeduration"; "0"; "-loglevel"; "0"; "-f";
                     "s16le"; "-ar"; "48000"; "-ac"; "2"])
  /\ take 1 (snd call)
     = [mkStage CallerStream [("error", DestroyAll [1])] [1] [] 0]
  /\ length (snd call) = 2.
Proof.
  intros call.
  assert (Hlive : live [fresh CallerStream] (VStream 0)) by (simpl; lia).
  assert (Hcall : call = (Return 1, snd call)) by (lazy; reflexivity).
  destruct (arbitraryStream_pipeline toString_integral (VStream 0) None
              [fresh CallerStream] (snd call) 1 Hlive Hcall)
    as (Hkind & [Htake Hlen] & _).
  split; [exact Hlive|]. split; [exact Hcall|]. split; [exact Hkind|].
  split; [exact Htake|exact Hlen].
Defined.

Lemma StreamDownloader_events_stay_in_chain_witness :
  let call :=
    StreamDownloader toString_integral (VString "https://example/video")
      (Some {| seek := None; encoderArgs := VUndefined; fmt := VUndefined;
               opusEncoded := VBool true |}) [] in
  let trace :=
    [(1, "error", [VString "reset"]); (0, "error", [VString "exited"]);
     (2, "close", []); (1, "end", [])] in
  call = (Return 2, snd call)
  /\ 2 <= 2
  /\ List.Forall (fun x => 0 <= raised_on x < 3) trace
  /\ exists w2,
       emit_trace 2 trace (snd call) = Some w2
       /\ take 0 w2 = []
       /\ destroy_calls_on w2 1 = 0.
Proof.
  intros call trace.
  assert (Hcall : call = (Return 2, snd call)) by (lazy; reflexivity).
  assert (Htrace : List.Forall (fun x => 0 <= raised_on x < 3) trace)
    by (repeat constructor).
  destruct (StreamDownloader_events_stay_in_chain toString_integral _ _ _ _ _
              trace 2 Hcall (le_n 2) Htrace)
    as (w2 & Hrun & _ & Htake & Hdestroy).
  split; [exact Hcall|]. split; [exact (le_n 2)|]. split; [exact Htrace|].
  exists w2. split; [exact Hrun|]. split; [exact Htake|].
  exact (Hdestroy 1 _ eq_refl eq_refl).
Defined.

Lemma arbitraryStream_events_stay_in_chain_witness :
  let call := arbitraryStream toString_integral (VBuffer []) None [] in
  let trace := [(1, "error", [VString "broken"]); (0, "close", [])] in
  live [] (VBuffer [])
  /\ call = (Return 0, snd call)
  /\ 1 <= 1
  /\ List.Forall (fun x => 0 <= raised_on x < 2) trace
  /\ exists w2,
       emit_trace 1 trace (snd call) = Some w2
       /\ destroy_calls_on w2 1 = 0.
Proof.
  intros call trace.
  assert (Hcall : call = (Return 0, snd call)) by (lazy; reflexivity).
  assert (Htrace : List.Forall (fun x => 0 <= raised_on x < 2) trace)
    by (repeat constructor).
  destruct (arbitraryStream_events_stay_in_chain toString_integral
              (VBuffer []) None [] (snd call) 0 trace 1 I Hcall (le_n 1)
              Htrace)
    as (w2 & Hrun & _ & _ & Hdestroy).
  split; [exact I|]. split; [exact Hcall|]. split; [exact (le_n 1)|].
  split; [exact Htrace|].
  exists w2. split; [exact Hrun|].
  exact (Hdestroy 1 _ eq_refl eq_refl).
Defined.


Lemma transcoder_errors_reach_encoder_witness :
  let call :=
    StreamDownloader toString_integral (VString "https://example/video")
      (Some {| seek := None; encoderArgs := VUndefined; fmt := VUndefined;
               opusEncoded := VBool true |}) [] in
  let events :=
    [("error", [VString "exited"; VNumber (S754_finite false 1 0)]);
     ("close", []); ("error", [])] in
  call = (Return 2, snd call)
  /\ 2 <= 2
  /\ exists w2,
       emit_all 2 0 events (snd call) = Some w2
       /\ emitted_on w2 2
          = [("error", [VString "exited"]); ("error", [VUndefined])].
Proof.
  intros call events.
  assert (Hcall : call = (Return 2, snd call)) by (lazy; reflexivity).
  destruct (transcoder_errors_reach_encoder toString_integral _ _ _ _ _
              events 2 Hcall eq_refl (le_n 2))
    as (w2 & Hrun & _ & Hseen & _).
  split; [exact Hcall|]. split; [exact (le_n 2)|].
  exists w2. split; [exact Hrun|exact Hseen].
Defined.

Lemma buffer_events_are_not_relayed_witness :
  1 <= 1
  /\ exists out w1 w2,
       arbitraryStream toString_integral (VBuffer [])
         (Some {| seek := None; encoderArgs := VUndefined; fmt := VUndefined;
                  opusEncoded := VBool true |}) [] = (Return out, w1)
       /\ emit_all 1 1 [("error", [VString "broken"]); ("end", [])] w1
          = Some w2
       /\ emitted_on w2 out = []
       /\ destroy_calls_on w2 0 = 1.
Proof.
  split; [exact (le_n 1)|].
  destruct (buffer_events_are_not_relayed toString_integral []
              (Some {| seek := None; encoderArgs := VUndefined;
                       fmt := VUndefined; opusEncoded := VBool true |}) []
              [("error", [VString "broken"]); ("end", [])] 1 (le_n 1))
    as (out & w1 & w2 & Hcall & _ & Hrun & _ & Hout & Hdestroy).
  exists out, w1, w2. split; [exact Hcall|]. split; [exact Hrun|].
  split; [exact Hout|exact Hdestroy].
Defined.

Lemma stream_events_are_not_relayed_witness :
  [fresh CallerStream] !! 0 = Some (fresh CallerStream)
  /\ listeners (fresh CallerStream) = []
  /\ 1 <= 1
  /\ exists out w1 w2,
       arbitraryStream toString_integral (VStream 0) None [fresh CallerStream]
       = (Return out, w1)
       /\ emit_all 1 0 [("error", [VString "broken"])] w1 = Some w2
       /\ emitted_on w2 0 = [("error", [VString "broken"])]
       /\ emitted_on w2 out = []
       /\ destroy_calls_on w2 1 = 1.
Proof.
  split; [reflexivity|]. split; [reflexivity|]. split; [exact (le_n 1)|].
  destruct (stream_events_are_not_relayed toString_integral 0
              (fresh CallerStream) None [fresh CallerStream]
              [("error", [VString "broken"])] 1 eq_refl eq_refl (le_n 1))
    as (out & w1 & w2 & Hcall & _ & Hrun & Hseen & Hout & Hdestroy).
  exists out, w1, w2. split; [exact Hcall|]. split; [exact Hrun|].
  split; [exact Hseen|]. split; [exact Hout|exact Hdestroy].
Defined.
